(** * Car rental service: the rental lifecycle over its two stores

    A shallow embedding of [src/lib/utils.js] and of the request handlers of
    [src/index.js], with the properties the specification states about them.

    Conventions of the model:
    - a JavaScript value coming from a request is a [JsValue];
    - money is kept in cents: the string [toFixed(2)] produces denotes the
      integer number of cents it spells, and doubles are read as the exact
      rationals they stand for (exact for the seeded rates and for every
      rate with two decimals and a day count of realistic size);
    - a [Date] is its time value in milliseconds, [None] for an invalid date;
    - the coercions of the runtime and of the database driver ([Number(v)],
      [new Date(v)], the comparison of an INT column with a statement
      parameter, the value a DATE column gives back) are variables of the
      development: every theorem holds whatever they are;
    - the MySQL tables are lists of rows plus their AUTO_INCREMENT counters;
      statements run in strict SQL mode, the ENUM column accepts exactly its
      three member names, column widths are not modelled, and the connection
      does not fail once it is established;
    - the handlers leave the timestamps ([created_at], [updated_at], uptime)
      out; the in-memory listing of rentals, which sorts on them, is
      modelled on its own over stamped rentals ([Listing]). *)

From Stdlib Require Import ZArith QArith Qround List Sorted Permutation String
  Ascii Bool Lia.
Import ListNotations.
Open Scope Z_scope.

(** ** JavaScript values and the coercions the handlers rely on *)

#[local] Unset Elimination Schemes.
Inductive JsValue : Type :=
| JUndefined                                  (* property absent *)
| JNull
| JBool (b : bool)
| JNum (q : Q)
| JStr (s : string)
| JArr (elems : list JsValue)
| JObj (props : list (string * JsValue)).
#[local] Set Elimination Schemes.

(** ToBoolean: what [!v] and [if (v)] test. *)
Definition truthy (v : JsValue) : bool :=
  match v with
  | JUndefined | JNull => false
  | JBool b => b
  | JNum q => negb (Qeq_bool q 0)
  | JStr s => negb (String.eqb s EmptyString)
  | JArr _ | JObj _ => true
  end.

(** [v === 'lit'] for a string literal. *)
Definition strict_eq_str (v : JsValue) (lit : string) : bool :=
  match v with
  | JStr s => String.eqb s lit
  | _ => false
  end.

(** [a || b] on values. *)
Definition js_or (a b : JsValue) : JsValue := if truthy a then a else b.

(** [Number.prototype.toFixed(2)], in cents: the integer [n] with [n / 100]
    closest to [x], the larger one in magnitude on a tie.  The handlers
    apply it to a rate with two decimals times a day count, where it is
    exact ([toFixed2_cents] below). *)
Definition toFixed2 (x : Q) : Z :=
  let c := (x * 100)%Q in
  if Qle_bool 0 c then Qfloor (c + (1 # 2))%Q else - Qfloor (- c + (1 # 2))%Q.

(** [Math.ceil(a / b)] on integer-valued operands. *)
Definition Math_ceil_div (a b : Z) : Z := Qceiling (inject_Z a / inject_Z b)%Q.

(** [Math.max(...xs)] for a non-empty argument list [x, ...xs]. *)
Definition Math_max (x : Z) (xs : list Z) : Z := fold_left Z.max xs x.

Definition msPerDay : Z := 1000 * 60 * 60 * 24.

(** ** Collections

    The array methods the in-memory store uses, and the three SQL statement
    shapes the durable store uses. *)

(** [x.field = v] on the object [arr.find(p)] returned: the first match. *)
Fixpoint update_first {A} (p : A -> bool) (f : A -> A) (l : list A) : list A :=
  match l with
  | [] => []
  | x :: l' => if p x then f x :: l' else x :: update_first p f l'
  end.

(** [arr.splice(arr.findIndex(p), 1)] when the index is not -1. *)
Fixpoint remove_first {A} (p : A -> bool) (l : list A) : list A :=
  match l with
  | [] => []
  | x :: l' => if p x then l' else x :: remove_first p l'
  end.

(** [SELECT * FROM t WHERE p] *)
Definition select_where {A} (p : A -> bool) (rows : list A) : list A :=
  filter p rows.

(** [UPDATE t SET ... WHERE p] *)
Definition update_where {A} (p : A -> bool) (f : A -> A) (rows : list A)
  : list A :=
  map (fun r => if p r then f r else r) rows.

(** [DELETE FROM t WHERE p] *)
Definition delete_where {A} (p : A -> bool) (rows : list A) : list A :=
  filter (fun r => negb (p r)) rows.

(** [id === n] for a number [n] that may be NaN or fractional ([None]), and
    [id = ?] for a parameter no integer row can match ([None]). *)
Definition id_is (n : option Z) (id : Z) : bool :=
  match n with
  | Some k => id =? k
  | None => false
  end.

Definition sum_list (l : list Z) : Z := fold_left Z.add l 0.

(** ** Data model *)

Module Car.
Record t : Type := mk {
  id : Z;
  make : string;
  model : string;
  year : Z;
  daily_rate : Q;               (* parseFloat(car.daily_rate) *)
  available : Z                 (* 0 or 1 *)
}.

Definition set_available (a : Z) (c : t) : t :=
  mk (id c) (make c) (model c) (year c) (daily_rate c) a.
End Car.

Module Rental.
Record t : Type := mk {
  id : Z;
  car_id : Z;
  renter_name : JsValue;
  start_date : JsValue;
  end_date : JsValue;
  total_cost : Z;               (* cents *)
  status : JsValue
}.

Definition set_end_date (e : JsValue) (cost : Z) (r : t) : t :=
  mk (id r) (car_id r) (renter_name r) (start_date r) e cost (status r).

Definition set_status (s : JsValue) (r : t) : t :=
  mk (id r) (car_id r) (renter_name r) (start_date r) (end_date r)
     (total_cost r) s.
End Rental.

(** The MySQL database [car_rental_db]. *)
Module Db.
Record t : Type := mk {
  cars : list Car.t;
  cars_auto_increment : Z;
  rentals : list Rental.t;
  rentals_auto_increment : Z
}.
End Db.

Record Metrics : Type := mkMetrics {
  totalRentals : Z;
  activeRentals : Z;
  totalRevenue : Z;               (* cents *)
  requestCount : Z
}.

(** The module-level variables of src/index.js. *)
Record App : Type := mkApp {
  metrics : Metrics;
  db : option Db.t;
  useInMemory : bool;
  inMemoryCars : list Car.t;
  inMemoryRentals : list Rental.t
}.

(** The two collections, whichever store holds them. *)
Definition cars (app : App) : list Car.t :=
  if useInMemory app then inMemoryCars app
  else match db app with Some d => Db.cars d | None => [] end.

Definition rentals (app : App) : list Rental.t :=
  if useInMemory app then inMemoryRentals app
  else match db app with Some d => Db.rentals d | None => [] end.

(** ** Requests and responses *)

Module Post.
(** [req.body] of POST /api/rentals, destructured. *)
Record body : Type := mk {
  car_id : JsValue;
  renter_name : JsValue;
  start_date : JsValue;
  end_date : JsValue
}.
End Post.

Module Put.
(** [req.body] of PUT /api/rentals/:id, destructured. *)
Record body : Type := mk {
  status : JsValue;
  end_date : JsValue
}.
End Put.

(** The error responses, one per message. *)
Inductive Error : Type :=
| RequiredFields      (* 400 car_id, renter_name, start_date and end_date are required *)
| CarNotFound         (* 404 Car not found *)
| CarNotAvailable     (* 400 Car is not available for rental *)
| InvalidDates        (* 400 Invalid dates *)
| RentalNotFound      (* 404 Rental not found *)
| InvalidEndDate      (* 400 Invalid end_date *)
| ServerError.        (* 500 Failed to ..., from the catch block *)

Definition http_status (e : Error) : Z :=
  match e with
  | CarNotFound | RentalNotFound => 404
  | ServerError => 500
  | RequiredFields | CarNotAvailable | InvalidDates | InvalidEndDate => 400
  end.

(** The taxonomy of the specification's error handling section. *)
Inductive ErrorKind : Type :=
| ValidationError | NotFoundError | ConflictError | UnexpectedError.

Definition kind (e : Error) : ErrorKind :=
  match e with
  | RequiredFields | InvalidDates | InvalidEndDate => ValidationError
  | CarNotFound | RentalNotFound => NotFoundError
  | CarNotAvailable => ConflictError
  | ServerError => UnexpectedError
  end.

Inductive Response (A : Type) : Type :=
| Ok (payload : A)
| Err (e : Error).
Arguments Ok {A} payload.
Arguments Err {A} e.

Module Created.
(** The 201 body of POST /api/rentals; a property the object does not
    carry reads as [JUndefined]. *)
Record t : Type := mk {
  id : Z;
  car_id : JsValue;
  renter_name : JsValue;
  start_date : JsValue;
  end_date : JsValue;
  total_cost : Z;
  status : JsValue;
  message : string
}.
End Created.

Module Updated.
(** The 200 body of PUT /api/rentals/:id. *)
Record t : Type := mk {
  message : string;
  id : JsValue;
  status : JsValue;
  end_date : JsValue;
  total_cost : Z
}.
End Updated.

Module Snapshot.
(** The body of GET /metrics. *)
Record t : Type := mk {
  rentals_total : Z;
  rentals_active : Z;
  rentals_completed : Z;
  revenue_total : Z;            (* cents *)
  requests_total : Z
}.
End Snapshot.

(** ** A runtime instance

    The coercions on the inputs the examples use: integers, decimal digit
    strings and ISO date-only strings [YYYY-MM-DD] of calendar days, which
    ECMAScript reads as midnight UTC.  Other strings are NaN, respectively
    invalid dates, in this instance. *)

Module Sample.

Definition digit (c : ascii) : option Z :=
  let n := Z.of_nat (nat_of_ascii c) in
  if (48 <=? n) && (n <=? 57) then Some (n - 48) else None.

Fixpoint digits (s : string) (acc : Z) : option Z :=
  match s with
  | EmptyString => Some acc
  | String c s' =>
      match digit c with
      | Some d => digits s' (10 * acc + d)
      | None => None
      end
  end.

Definition Number (v : JsValue) : option Z :=
  match v with
  | JUndefined => None
  | JNull => Some 0
  | JBool b => Some (if b then 1 else 0)
  | JNum q => let r := Qred q in
              if (Zpos (Qden r) =? 1) then Some (Qnum r) else None
  | JStr s => digits s 0
  | JArr _ | JObj _ => None
  end.

Definition is_leap (y : Z) : bool :=
  ((y mod 4 =? 0) && negb (y mod 100 =? 0)) || (y mod 400 =? 0).

Definition days_in_month (y m : Z) : Z :=
  if m =? 2 then (if is_leap y then 29 else 28)
  else if (m =? 4) || (m =? 6) || (m =? 9) || (m =? 11) then 30
  else 31.

(** Days from 1970-01-01 to the civil date [y-m-d]. *)
Definition days_from_civil (y m d : Z) : Z :=
  let y' := if m <=? 2 then y - 1 else y in
  let era := y' / 400 in
  let yoe := y' - era * 400 in
  let mp := if 2 <? m then m - 3 else m + 9 in
  let doy := (153 * mp + 2) / 5 + d - 1 in
  let doe := yoe * 365 + yoe / 4 - yoe / 100 + doy in
  era * 146097 + doe - 719468.

Definition parse_iso_date (s : string) : option Z :=
  if negb (Nat.eqb (String.length s) 10) then None
  else if negb (String.eqb (substring 4 1 s) "-"
                && String.eqb (substring 7 1 s) "-") then None
  else
    match digits (substring 0 4 s) 0, digits (substring 5 2 s) 0,
          digits (substring 8 2 s) 0 with
    | Some y, Some m, Some d =>
        if (1 <=? m) && (m <=? 12) && (1 <=? d) && (d <=? days_in_month y m)
        then Some (days_from_civil y m d * msPerDay)
        else None
    | _, _, _ => None
    end.

(** [new Date(v).getTime()] *)
Definition newDate (v : JsValue) : option Z :=
  match v with
  | JStr s => parse_iso_date s
  | JNull => Some 0
  | JBool b => Some (if b then 1 else 0)
  | JNum q => let r := Qred q in
              if (Zpos (Qden r) =? 1) && (Z.abs (Qnum r) <=? 8640000000000000)
              then Some (Qnum r) else None
  | JUndefined | JArr _ | JObj _ => None
  end.

(** A statement parameter compared with an INT column. *)
Definition sqlInt (v : JsValue) : option Z :=
  match v with
  | JNull => None
  | _ => Number v
  end.

(** A DATE column read back (server and driver in UTC). *)
Definition dateColumn (v : JsValue) : JsValue := v.

End Sample.

(** ** src/lib/utils.js and src/index.js *)

Section Service.

(** [Number(v)] when it is an integer, [None] when it is NaN or has a
    fractional part (it is only ever compared with integer ids). *)
Variable Number : JsValue -> option Z.

(** [new Date(v).getTime()], [None] when it is NaN. *)
Variable newDate : JsValue -> option Z.

(** The integer an INT column is compared with for a statement parameter,
    [None] when no row can match. *)
Variable sqlInt : JsValue -> option Z.

(** The value a DATE column gives back after a parameter was stored. *)
Variable dateColumn : JsValue -> JsValue.

(** *** lib/utils.js *)

Definition daysInclusive (startDate endDate : JsValue) : Z :=
  match newDate startDate, newDate endDate with
  | Some start, Some end_ =>
      if end_ <? start then 0
      else
        let days := Math_ceil_div (end_ - start) msPerDay + 1 in
        Z.max 1 days
  | _, _ => 0
  end.

(** *** initDB *)

Definition initial : App :=
  mkApp (mkMetrics 0 0 0 0) None false [] [].

Definition sampleCars (first : Z) : list Car.t :=
  [ Car.mk first "Toyota" "Corolla" 2020 (35 # 1) 1;
    Car.mk (first + 1) "Honda" "Civic" 2019 (75 # 2) 1;
    Car.mk (first + 2) "Ford" "Focus" 2018 (30 # 1) 1 ].

(** [connection] is what [mysql.createConnection] resolves to: the
    database with both tables created, or [None] when it throws. *)
Definition initDB (connection : option Db.t) (app : App) : App :=
  match connection with
  | Some d =>
      let count := Z.of_nat (List.length (Db.cars d)) in
      let d' :=
        if count =? 0 then
          Db.mk (sampleCars (Db.cars_auto_increment d))
                (Db.cars_auto_increment d + 3)
                (Db.rentals d) (Db.rentals_auto_increment d)
        else d in
      mkApp (metrics app) (Some d') (useInMemory app)
            (inMemoryCars app) (inMemoryRentals app)
  | None =>
      mkApp (metrics app) (db app) true (sampleCars 1) (inMemoryRentals app)
  end.

(** *** updateMetrics *)

Definition is_ongoing (r : Rental.t) : bool :=
  strict_eq_str (Rental.status r) "ongoing".

Definition is_ongoing_or_returned (r : Rental.t) : bool :=
  strict_eq_str (Rental.status r) "ongoing"
  || strict_eq_str (Rental.status r) "returned".

Definition updateMetrics (app : App) : App :=
  let m := metrics app in
  if useInMemory app then
    let rs := inMemoryRentals app in
    mkApp (mkMetrics (Z.of_nat (List.length rs))
                     (Z.of_nat (List.length (filter is_ongoing rs)))
                     (fold_left (fun sum r => sum + Rental.total_cost r) rs 0)
                     (requestCount m))
          (db app) (useInMemory app) (inMemoryCars app) (inMemoryRentals app)
  else
    match db app with
    | None => app                       (* the catch block only logs *)
    | Some d =>
        let rs := Db.rentals d in
        mkApp (mkMetrics
                 (Z.of_nat (List.length rs))
                 (Z.of_nat (List.length (select_where is_ongoing rs)))
                 (sum_list (map Rental.total_cost
                              (select_where is_ongoing_or_returned rs)))
                 (requestCount m))
              (db app) (useInMemory app) (inMemoryCars app)
              (inMemoryRentals app)
    end.

(** *** GET /api/cars *)

Definition get_cars (app : App) : App * Response (list Car.t) :=
  if useInMemory app then (app, Ok (inMemoryCars app))
  else match db app with
       | Some d => (app, Ok (Db.cars d))      (* ORDER BY id: insertion order *)
       | None => (app, Err ServerError)
       end.

(** *** POST /api/rentals *)

Definition post_rentals (body : Post.body) (app : App)
  : App * Response Created.t :=
  let car_id := Post.car_id body in
  let renter_name := Post.renter_name body in
  let start_date := Post.start_date body in
  let end_date := Post.end_date body in
  if negb (truthy car_id) || negb (truthy renter_name)
     || negb (truthy start_date) || negb (truthy end_date)
  then (app, Err RequiredFields)
  else if useInMemory app then
    match find (fun c => id_is (Number car_id) (Car.id c)) (inMemoryCars app) with
    | None => (app, Err CarNotFound)
    | Some car =>
        if Car.available car =? 0 then (app, Err CarNotAvailable)
        else
          let days := daysInclusive start_date end_date in
          if days =? 0 then (app, Err InvalidDates)
          else
            let total_cost := toFixed2 (Car.daily_rate car * inject_Z days) in
            let newId :=
              match map Rental.id (inMemoryRentals app) with
              | [] => 1
              | x :: xs => Math_max x xs + 1
              end in
            (* Number(car_id) is car.id, by the find above *)
            let rental :=
              Rental.mk newId (Car.id car) renter_name start_date end_date
                        total_cost (JStr "ongoing") in
            (mkApp (metrics app) (db app) (useInMemory app)
                   (update_first (fun c => id_is (Number car_id) (Car.id c))
                                 (Car.set_available 0) (inMemoryCars app))
                   (inMemoryRentals app ++ [rental]),
             Ok (Created.mk newId (JNum (inject_Z (Car.id car))) renter_name
                            start_date end_date total_cost (JStr "ongoing")
                            "Rental created (in-memory)"))
    end
  else
    match db app with
    | None => (app, Err ServerError)
    | Some d =>
        match select_where (fun c => id_is (sqlInt car_id) (Car.id c))
                           (Db.cars d) with
        | [] => (app, Err CarNotFound)
        | car :: _ =>
            if Car.available car =? 0 then (app, Err CarNotAvailable)
            else
              match newDate start_date, newDate end_date with
              | Some start, Some end_ =>
                  if end_ <? start then (app, Err InvalidDates)
                  else
                    let days := Math_ceil_div (end_ - start) msPerDay + 1 in
                    let total_cost :=
                      toFixed2 (Car.daily_rate car * inject_Z days) in
                    let insertId := Db.rentals_auto_increment d in
                    (* status is the column default; car_id is the integer
                       the parameter was matched as *)
                    let row :=
                      Rental.mk insertId (Car.id car) renter_name
                                (dateColumn start_date) (dateColumn end_date)
                                total_cost (JStr "ongoing") in
                    (mkApp (metrics app)
                           (Some (Db.mk
                                    (update_where
                                       (fun c => id_is (sqlInt car_id) (Car.id c))
                                       (Car.set_available 0) (Db.cars d))
                                    (Db.cars_auto_increment d)
                                    (Db.rentals d ++ [row])
                                    (insertId + 1)))
                           (useInMemory app) (inMemoryCars app)
                           (inMemoryRentals app),
                     Ok (Created.mk insertId car_id renter_name start_date
                                    end_date total_cost JUndefined
                                    "Rental created"))
              | _, _ => (app, Err InvalidDates)
              end
        end
    end.

(** *** PUT /api/rentals/:id *)

(** The three members of the ENUM column [status]. *)
Definition in_status_enum (v : JsValue) : bool :=
  strict_eq_str v "ongoing" || strict_eq_str v "returned"
  || strict_eq_str v "cancelled".

Definition put_rentals (id : JsValue) (body : Put.body) (app : App)
  : App * Response Updated.t :=
  let status := Put.status body in
  let end_date := Put.end_date body in
  if useInMemory app then
    match find (fun r => id_is (Number id) (Rental.id r)) (inMemoryRentals app) with
    | None => (app, Err RentalNotFound)
    | Some rental =>
        let refers c := Car.id c =? Rental.car_id rental in
        (* if (end_date) { ... } *)
        let dated : Rental.t + Error :=
          if truthy end_date then
            let car := find refers (inMemoryCars app) in
            let days := daysInclusive (Rental.start_date rental) end_date in
            if days =? 0 then inr InvalidEndDate
            else
              match car with
              | None => inr ServerError         (* car.daily_rate throws *)
              | Some car =>
                  inl (Rental.set_end_date end_date
                         (toFixed2 (Car.daily_rate car * inject_Z days)) rental)
              end
          else inl rental in
        match dated with
        | inr e => (app, Err e)
        | inl rental1 =>
            (* if (status) { ... } *)
            let rental2 :=
              if truthy status then Rental.set_status status rental1
              else rental1 in
            let cars2 :=
              if truthy status && strict_eq_str status "returned"
              then update_first refers (Car.set_available 1) (inMemoryCars app)
              else inMemoryCars app in
            (mkApp (metrics app) (db app) (useInMemory app) cars2
                   (update_first (fun r => id_is (Number id) (Rental.id r))
                                 (fun _ => rental2) (inMemoryRentals app)),
             Ok (Updated.mk "Rental updated (in-memory)"
                            (JNum (inject_Z (Rental.id rental2)))
                            (Rental.status rental2) (Rental.end_date rental2)
                            (Rental.total_cost rental2)))
        end
    end
  else
    match db app with
    | None => (app, Err ServerError)
    | Some d =>
        let matches r := id_is (sqlInt id) (Rental.id r) in
        match select_where matches (Db.rentals d) with
        | [] => (app, Err RentalNotFound)
        | rental :: _ =>
            let refers c := Car.id c =? Rental.car_id rental in
            (* If end_date changed, recompute total *)
            let recomputed : Z + Error :=
              if truthy end_date then
                let car := hd_error (select_where refers (Db.cars d)) in
                match newDate end_date with
                | None => inr InvalidEndDate
                | Some end_ =>
                    match newDate (Rental.start_date rental) with
                    | None => inr ServerError   (* days is NaN: not a DECIMAL *)
                    | Some start =>
                        if end_ <? start then inr InvalidEndDate
                        else
                          let days :=
                            Math_ceil_div (end_ - start) msPerDay + 1 in
                          match car with
                          | None => inr ServerError
                          | Some car =>
                              inl (toFixed2
                                     (Car.daily_rate car * inject_Z days))
                          end
                    end
                end
              else inl (Rental.total_cost rental) in
            match recomputed with
            | inr e => (app, Err e)
            | inl total_cost =>
                let new_status := js_or status (Rental.status rental) in
                let new_end :=
                  if truthy end_date then dateColumn end_date
                  else Rental.end_date rental in
                if negb (in_status_enum new_status)
                then (app, Err ServerError)     (* the UPDATE is rejected *)
                else
                  let rentals2 :=
                    update_where matches
                      (fun r => Rental.set_status new_status
                                  (Rental.set_end_date new_end total_cost r))
                      (Db.rentals d) in
                  let cars2 :=
                    if strict_eq_str status "returned"
                    then update_where refers (Car.set_available 1) (Db.cars d)
                    else Db.cars d in
                  (mkApp (metrics app)
                         (Some (Db.mk cars2 (Db.cars_auto_increment d)
                                      rentals2 (Db.rentals_auto_increment d)))
                         (useInMemory app) (inMemoryCars app)
                         (inMemoryRentals app),
                   Ok (Updated.mk "Rental updated" id new_status
                                  (js_or end_date (Rental.end_date rental))
                                  total_cost))
            end
        end
    end.

(** *** DELETE /api/rentals/:id *)

Definition delete_rentals (id : JsValue) (app : App)
  : App * Response string :=
  if useInMemory app then
    let matches r := id_is (Number id) (Rental.id r) in
    match find matches (inMemoryRentals app) with    (* findIndex *)
    | None => (app, Err RentalNotFound)
    | Some _ =>
        (mkApp (metrics app) (db app) (useInMemory app) (inMemoryCars app)
               (remove_first matches (inMemoryRentals app)),
         Ok "Rental deleted (in-memory)"%string)
    end
  else
    match db app with
    | None => (app, Err ServerError)
    | Some d =>
        let matches r := id_is (sqlInt id) (Rental.id r) in
        let affectedRows :=
          Z.of_nat (List.length (select_where matches (Db.rentals d))) in
        if affectedRows =? 0 then (app, Err RentalNotFound)
        else
          (mkApp (metrics app)
                 (Some (Db.mk (Db.cars d) (Db.cars_auto_increment d)
                              (delete_where matches (Db.rentals d))
                              (Db.rentals_auto_increment d)))
                 (useInMemory app) (inMemoryCars app) (inMemoryRentals app),
           Ok "Rental deleted"%string)
    end.

(** *** GET /metrics *)

Definition get_metrics (app : App) : App * Response Snapshot.t :=
  let app' := updateMetrics app in
  let m := metrics app' in
  (app',
   Ok (Snapshot.mk (totalRentals m) (activeRentals m)
                   (totalRentals m - activeRentals m)
                   (totalRevenue m) (requestCount m))).

(** *** The application: the counting middleware, then the route *)

Inductive Request : Type :=
| GET_cars
| POST_rentals (body : Post.body)
| PUT_rentals (id : JsValue) (body : Put.body)
| DELETE_rentals (id : JsValue)
| GET_metrics.

Inductive Payload : Type :=
| CarList (l : list Car.t)
| CreatedRental (c : Created.t)
| UpdatedRental (u : Updated.t)
| Deleted (message : string)
| MetricsSnapshot (m : Snapshot.t).

Definition respond {A} (wrap : A -> Payload) (r : App * Response A)
  : App * Response Payload :=
  (fst r, match snd r with Ok a => Ok (wrap a) | Err e => Err e end).

Definition count_request (app : App) : App :=
  let m := metrics app in
  mkApp (mkMetrics (totalRentals m) (activeRentals m) (totalRevenue m)
                   (requestCount m + 1))
        (db app) (useInMemory app) (inMemoryCars app) (inMemoryRentals app).

Definition handle (req : Request) (app : App) : App * Response Payload :=
  let app := count_request app in
  match req with
  | GET_cars => respond CarList (get_cars app)
  | POST_rentals body => respond CreatedRental (post_rentals body app)
  | PUT_rentals id body => respond UpdatedRental (put_rentals id body app)
  | DELETE_rentals id => respond Deleted (delete_rentals id app)
  | GET_metrics => respond MetricsSnapshot (get_metrics app)
  end.

(** A session: the requests served one after the other, with the
    responses in order. *)
Fixpoint serve (reqs : list Request) (app : App)
  : App * list (Response Payload) :=
  match reqs with
  | [] => (app, [])
  | req :: reqs' =>
      let '(app1, r) := handle req app in
      let '(app2, rs) := serve reqs' app1 in
      (app2, r :: rs)
  end.

(** *** Vocabulary of the properties *)

(** The store is usable: [initDB] has run. *)
Definition ready (app : App) : Prop :=
  useInMemory app = true \/ exists d, db app = Some d.

(** How the active store reads an id it is given. *)
Definition id_param (app : App) (v : JsValue) : option Z :=
  if useInMemory app then Number v else sqlInt v.

Definition car_for (app : App) (v : JsValue) : option Car.t :=
  find (fun c => id_is (id_param app v) (Car.id c)) (cars app).

Definition rental_for (app : App) (v : JsValue) : option Rental.t :=
  find (fun r => id_is (id_param app v) (Rental.id r)) (rentals app).

(** The car a rental refers to. *)
Definition car_of (app : App) (r : Rental.t) : option Car.t :=
  find (fun c => Car.id c =? Rental.car_id r) (cars app).

(** The guard of POST /api/rentals: some field is absent or falsy. *)
Definition some_field_falsy (body : Post.body) : bool :=
  negb (truthy (Post.car_id body)) || negb (truthy (Post.renter_name body))
  || negb (truthy (Post.start_date body)) || negb (truthy (Post.end_date body)).

(** The revenue the specification describes: the total cost of the rentals
    that are ongoing or returned. *)
Definition billable_revenue (rs : list Rental.t) : Z :=
  sum_list (map Rental.total_cost (filter is_ongoing_or_returned rs)).

(** The ids a session handed out, in order. *)
Fixpoint created_ids (rs : list (Response Payload)) : list Z :=
  match rs with
  | [] => []
  | Ok (CreatedRental c) :: rs' => Created.id c :: created_ids rs'
  | _ :: rs' => created_ids rs'
  end.

(** The AUTO_INCREMENT counter of the rentals table. *)
Definition counter (app : App) : Z :=
  match db app with
  | Some d => Db.rentals_auto_increment d
  | None => 0
  end.

(** Rental ids identify rentals, and the durable counter is ahead of them. *)
Definition wf (app : App) : Prop :=
  ready app
  /\ NoDup (map Rental.id (rentals app))
  /\ (useInMemory app = false ->
      forall d, db app = Some d ->
      Forall (fun r => Rental.id r < Db.rentals_auto_increment d) (Db.rentals d)).

(** *** Vocabulary of the invariants *)

(** What a request never changes about a car: everything but the flag. *)
Definition car_identity (c : Car.t) : Z * string * string * Z * Q :=
  (Car.id c, Car.make c, Car.model c, Car.year c, Car.daily_rate c).

Definition fleet (app : App) : list (Z * string * string * Z * Q) :=
  map car_identity (cars app).

Definition flags_binary (app : App) : Prop :=
  Forall (fun c => Car.available c = 0 \/ Car.available c = 1) (cars app).

(** Every rental refers to a car of the store. *)
Definition references_cars (app : App) : Prop :=
  Forall (fun r => exists c, car_of app r = Some c) (rentals app).

(** The stored cost of a rental is its car's rate times its inclusive day
    count, to the cent, and the day count is positive. *)
Definition priced (app : App) (r : Rental.t) : Prop :=
  exists c,
    car_of app r = Some c
    /\ 0 < daysInclusive (Rental.start_date r) (Rental.end_date r)
    /\ Rental.total_cost r
       = toFixed2 (Car.daily_rate c
                   * inject_Z (daysInclusive (Rental.start_date r)
                                             (Rental.end_date r))).

Definition costs_consistent (app : App) : Prop :=
  Forall (priced app) (rentals app).

(** The rental an Update leaves, given the rental it found and the cost it
    answers: with an [end_date] in the body the end and the cost are
    replaced, with a status the status is. *)
Definition updated_rental (app : App) (body : Put.body) (rental : Rental.t)
  (cost : Z) : Rental.t :=
  Rental.mk (Rental.id rental) (Rental.car_id rental)
            (Rental.renter_name rental) (Rental.start_date rental)
            (if truthy (Put.end_date body)
             then (if useInMemory app then Put.end_date body
                   else dateColumn (Put.end_date body))
             else Rental.end_date rental)
            cost
            (js_or (Put.status body) (Rental.status rental)).

(** What an Update never changes about a rental. *)
Definition rental_identity (r : Rental.t) : Z * Z * JsValue * JsValue :=
  (Rental.id r, Rental.car_id r, Rental.renter_name r, Rental.start_date r).

(** What a request may do to the cars: set the flag of the cars it selects. *)
Inductive reflagged (l : list Car.t) : list Car.t -> Prop :=
| reflag_none : reflagged l l
| reflag_first p a :
    a = 0 \/ a = 1 -> reflagged l (update_first p (Car.set_available a) l)
| reflag_where p a :
    a = 0 \/ a = 1 -> reflagged l (update_where p (Car.set_available a) l).

End Service.

(** ** Two seeded applications and a few requests *)

Definition volatile : App := initDB None initial.

Definition durable : App := initDB (Some (Db.mk [] 1 [] 1)) initial.

Definition alice : Post.body :=
  Post.mk (JNum 1) (JStr "Alice") (JStr "2025-01-01") (JStr "2025-01-03").

Definition bob : Post.body :=
  Post.mk (JNum 2) (JStr "Bob") (JStr "2025-01-01") (JStr "2025-01-05").

(** A body whose [car_id] is the number 0. *)
Definition zero_car : Post.body :=
  Post.mk (JNum 0) (JStr "Alice") (JStr "2025-01-01") (JStr "2025-01-03").

Definition only_status (s : string) : Put.body := Put.mk (JStr s) JUndefined.

(** Create a rental, cancel it, read the metrics. *)
Definition cancel_session : list Request :=
  [ POST_rentals alice;
    PUT_rentals (JStr "1") (only_status "cancelled");
    GET_metrics ].

(** Create a rental and return the car. *)
Definition return_session : list Request :=
  [ POST_rentals alice;
    PUT_rentals (JStr "1") (only_status "returned") ].

(** Create a rental, delete it, create another one. *)
Definition recreate_session : list Request :=
  [ POST_rentals alice;
    DELETE_rentals (JStr "1");
    POST_rentals bob ].

(** A request for the car Alice holds, with the end before the start. *)
Definition backwards : Post.body :=
  Post.mk (JNum 1) (JStr "Bob") (JStr "2025-01-10") (JStr "2025-01-05").

Definition sample_handle : Request -> App -> App * Response Payload :=
  handle Sample.Number Sample.newDate Sample.sqlInt Sample.dateColumn.

Definition sample_serve : list Request -> App -> App * list (Response Payload) :=
  serve Sample.Number Sample.newDate Sample.sqlInt Sample.dateColumn.

(** The in-memory store once Alice has rented car 1, and her rental. *)
Definition rented : App := fst (sample_handle (POST_rentals alice) volatile).

Definition alice_rental : Rental.t :=
  Rental.mk 1 1 (JStr "Alice") (JStr "2025-01-01") (JStr "2025-01-03") 10500
            (JStr "ongoing").

(** The in-memory store once she has returned the car. *)
Definition given_back : App := fst (sample_serve return_session volatile).

(** The handlers on the sample runtime, and what they answer Alice. *)
Definition sample_post : Post.body -> App -> App * Response Created.t :=
  post_rentals Sample.Number Sample.newDate Sample.sqlInt Sample.dateColumn.

Definition sample_put
  : JsValue -> Put.body -> App -> App * Response Updated.t :=
  put_rentals Sample.Number Sample.newDate Sample.sqlInt Sample.dateColumn.

Definition sample_delete : JsValue -> App -> App * Response string :=
  delete_rentals Sample.Number Sample.sqlInt.

Definition booked : App := fst (sample_post alice volatile).

Definition alice_created : Created.t :=
  Created.mk 1 (JNum 1) (JStr "Alice") (JStr "2025-01-01") (JStr "2025-01-03")
             10500 (JStr "ongoing") "Rental created (in-memory)".

Definition bob_created : Created.t :=
  Created.mk 2 (JNum 2) (JStr "Bob") (JStr "2025-01-01") (JStr "2025-01-05")
             18750 (JStr "ongoing") "Rental created (in-memory)".

(** Car 1 while Alice holds it. *)
Definition held_corolla : Car.t := Car.mk 1 "Toyota" "Corolla" 2020 (35 # 1) 0.

(** A later request for car 1, named by a string. *)
Definition carol : Post.body :=
  Post.mk (JStr "1") (JStr "Carol") (JStr "2025-02-01") (JStr "2025-02-02").

(** Move the end of a rental to 2025-01-05. *)
Definition to_the_fifth : Put.body := Put.mk JUndefined (JStr "2025-01-05").

Definition returned_answer : Updated.t :=
  Updated.mk "Rental updated (in-memory)" (JNum 1) (JStr "returned")
             (JStr "2025-01-03") 10500.

Definition extended_answer : Updated.t :=
  Updated.mk "Rental updated (in-memory)" (JNum 1) (JStr "ongoing")
             (JStr "2025-01-05") 17500.

(** A session that creates, extends, returns, re-rents, deletes and reads. *)
Definition busy_session : list Request :=
  [ POST_rentals alice;
    POST_rentals bob;
    PUT_rentals (JStr "1") to_the_fifth;
    PUT_rentals (JStr "1") (only_status "returned");
    POST_rentals carol;
    DELETE_rentals (JStr "2");
    POST_rentals zero_car;
    GET_metrics;
    GET_cars ].

(** ** GET /api/rentals, in-memory branch

    The handlers above leave the stamps of a rental out; the listing sorts
    on them, so it is modelled on its own, over the rentals with their
    stamps.  A stamp is the time value of the ISO string [toISOString]
    wrote. *)

Module Listing.

(** An element of [inMemoryRentals]. *)
Record entry : Type := mkEntry {
  rental : Rental.t;
  created_at : Z;
  updated_at : Z
}.

(** A row of the answer: [{ ...r, make, model, year, daily_rate }], the
    car's fields [None] (undefined) when no car has the rental's car_id and
    [car] is [{}]. *)
Record row : Type := mkRow {
  of_entry : entry;
  make : option string;
  model : option string;
  year : option Z;
  daily_rate : option Q
}.

(** The comparator: [new Date(b.created_at) - new Date(a.created_at)]. *)
Definition compare (a b : entry) : Z := created_at b - created_at a.

(** [Array.prototype.sort] is stable: [a] stays before every [b] after it
    in the array unless [compare a b] is positive. *)
Fixpoint insert (a : entry) (l : list entry) : list entry :=
  match l with
  | [] => [a]
  | b :: l' => if 0 <? compare a b then b :: insert a l' else a :: l
  end.

Fixpoint sort (l : list entry) : list entry :=
  match l with
  | [] => []
  | a :: l' => insert a (sort l')
  end.

Definition join (inMemoryCars : list Car.t) (r : entry) : row :=
  let car := find (fun c => Car.id c =? Rental.car_id (rental r)) inMemoryCars in
  mkRow r (option_map Car.make car) (option_map Car.model car)
        (option_map Car.year car) (option_map Car.daily_rate car).

Definition get_rentals (inMemoryCars : list Car.t)
  (inMemoryRentals : list entry) : list row :=
  map (join inMemoryCars) (sort inMemoryRentals).

(** The order of the answer. *)
Definition newest_first (a b : entry) : Prop := created_at b <= created_at a.

End Listing.

(** ** Facts about the helpers *)

Lemma Math_ceil_div_bounds (a b : Z) :
  0 < b -> (Math_ceil_div a b - 1) * b < a <= Math_ceil_div a b * b.
Proof.
  intros Hb. unfold Math_ceil_div, Qceiling.
  assert (E : Qfloor (- (inject_Z a / inject_Z b)) = (- a) / b).
  { unfold Qfloor, Qdiv, Qmult, Qinv, Qopp, inject_Z. simpl.
    destruct b as [|p|p]; try lia. simpl. f_equal; lia. }
  rewrite E.
  pose proof (Z.mul_div_le (- a) b Hb).
  pose proof (Z.mul_succ_div_gt (- a) b Hb).
  nia.
Qed.

Lemma toFixed2_cents (c n : Z) : toFixed2 ((c # 100) * inject_Z n) = c * n.
Proof.
  unfold toFixed2.
  assert (E : ((c # 100) * inject_Z n * 100 == inject_Z (c * n))%Q).
  { unfold Qeq, Qmult, inject_Z. simpl. lia. }
  assert (F : forall k, Qfloor (inject_Z k + (1 # 2)) = k).
  { intros k. unfold Qfloor, Qplus, inject_Z. simpl.
    symmetry. apply (Z.div_unique _ 2 k 1); lia. }
  destruct (Qle_bool 0 _).
  - rewrite (Qfloor_comp _ _ (Qplus_comp _ _ E _ _ (Qeq_refl _))). apply F.
  - rewrite (Qfloor_comp _ (inject_Z (- (c * n)) + (1 # 2))).
    + rewrite F. lia.
    + rewrite E. unfold Qeq, Qopp, Qplus, inject_Z. simpl. lia.
Qed.

(** Validation and conflicts answer 400, not-found 404, the rest 500. *)
Lemma http_status_of_kind (e : Error) :
  http_status e = match kind e with
                  | ValidationError | ConflictError => 400
                  | NotFoundError => 404
                  | UnexpectedError => 500
                  end.
Proof. destruct e; reflexivity. Qed.

Lemma Math_max_ge (xs : list Z) : forall x,
  x <= Math_max x xs /\ Forall (fun y => y <= Math_max x xs) xs.
Proof.
  unfold Math_max. induction xs as [|y ys IH]; intros x; simpl.
  - split; [lia | constructor].
  - destruct (IH (Z.max x y)) as [H1 H2]. split; [lia|].
    constructor; [lia | exact H2].
Qed.

Lemma hd_error_filter {A} (p : A -> bool) (l : list A) :
  hd_error (filter p l) = find p l.
Proof.
  induction l as [|x l IH]; simpl; [reflexivity|].
  destruct (p x); [reflexivity | exact IH].
Qed.

Lemma filter_nil_find {A} (p : A -> bool) (l : list A) :
  filter p l = [] -> find p l = None.
Proof. intros H. rewrite <- hd_error_filter, H. reflexivity. Qed.

Lemma find_update_first {A} (p : A -> bool) (f : A -> A) (l : list A) :
  (forall x, p x = true -> p (f x) = true) ->
  find p (update_first p f l) = option_map f (find p l).
Proof.
  intros Hf. induction l as [|x l IH]; simpl; [reflexivity|].
  destruct (p x) eqn:E; simpl.
  - now rewrite (Hf x E).
  - now rewrite E.
Qed.

Lemma find_update_where {A} (p : A -> bool) (f : A -> A) (l : list A) :
  (forall x, p x = true -> p (f x) = true) ->
  find p (update_where p f l) = option_map f (find p l).
Proof.
  intros Hf. unfold update_where. induction l as [|x l IH]; simpl; [reflexivity|].
  destruct (p x) eqn:E; simpl.
  - now rewrite (Hf x E).
  - now rewrite E.
Qed.

Lemma map_update_where {A B} (g : A -> B) (p : A -> bool) (f : A -> A) l :
  (forall x, g (f x) = g x) -> map g (update_where p f l) = map g l.
Proof.
  intros H. unfold update_where. rewrite map_map. apply map_ext.
  intros x. destruct (p x); [apply H | reflexivity].
Qed.

(** ** Properties of the date-range calculator *)

Section DateRangeFacts.

Variable newDate : JsValue -> option Z.

Local Abbreviation daysInclusive := (daysInclusive newDate).

Lemma daysInclusive_valid s e a b :
  newDate s = Some a -> newDate e = Some b -> a <= b ->
  daysInclusive s e = Math_ceil_div (b - a) msPerDay + 1
  /\ 1 <= daysInclusive s e.
Proof.
  intros Hs He Hab. unfold daysInclusive. rewrite Hs, He.
  destruct (Z.ltb_spec b a) as [?|_]; [lia|].
  pose proof (Math_ceil_div_bounds (b - a) msPerDay eq_refl) as B.
  unfold msPerDay in *. cbv zeta. nia.
Qed.

Lemma daysInclusive_zero_iff s e :
  daysInclusive s e = 0 <->
  match newDate s, newDate e with
  | Some a, Some b => b < a
  | _, _ => True
  end.
Proof.
  destruct (newDate s) as [a|] eqn:Hs, (newDate e) as [b|] eqn:He;
    try (unfold daysInclusive; rewrite Hs; try rewrite He; tauto).
  destruct (Z.ltb_spec b a) as [Hlt|Hge].
  - unfold daysInclusive. rewrite Hs, He.
    destruct (Z.ltb_spec b a); [tauto|lia].
  - destruct (daysInclusive_valid s e a b Hs He Hge) as [_ H1]. lia.
Qed.


(** The durable branches inline the computation of [daysInclusive] without
    the final [Math.max]; it is the same number. *)
Lemma inline_days s e a b :
  newDate s = Some a -> newDate e = Some b -> (b <? a) = false ->
  Math_ceil_div (b - a) msPerDay + 1 = daysInclusive s e.
Proof.
  intros Hs He Hlt. apply Z.ltb_ge in Hlt.
  now destruct (daysInclusive_valid s e a b Hs He Hlt) as [-> _].
Qed.

End DateRangeFacts.

(** ** Properties of the service *)

Section Facts.

#[local] Set Default Proof Using "Type".

Variable Number : JsValue -> option Z.
Variable newDate : JsValue -> option Z.
Variable sqlInt : JsValue -> option Z.
Variable dateColumn : JsValue -> JsValue.

Local Abbreviation daysInclusive := (daysInclusive newDate).
Local Abbreviation post_rentals :=
  (post_rentals Number newDate sqlInt dateColumn).
Local Abbreviation put_rentals := (put_rentals Number newDate sqlInt dateColumn).
Local Abbreviation delete_rentals := (delete_rentals Number sqlInt).
Local Abbreviation handle := (handle Number newDate sqlInt dateColumn).
Local Abbreviation serve := (serve Number newDate sqlInt dateColumn).
Local Abbreviation id_param := (id_param Number sqlInt).
Local Abbreviation car_for := (car_for Number sqlInt).
Local Abbreviation rental_for := (rental_for Number sqlInt).

(** Splits on whatever the goal still matches on. *)
Ltac branch :=
  match goal with
  | |- context [match ?x with _ => _ end] => destruct x eqn:?
  end.

(** *** The two views of the store *)

Lemma cars_volatile app : useInMemory app = true -> cars app = inMemoryCars app.
Proof. unfold cars. now intros ->. Qed.

Lemma rentals_volatile app :
  useInMemory app = true -> rentals app = inMemoryRentals app.
Proof. unfold rentals. now intros ->. Qed.

Lemma cars_durable app d :
  useInMemory app = false -> db app = Some d -> cars app = Db.cars d.
Proof. unfold cars. now intros -> ->. Qed.

Lemma rentals_durable app d :
  useInMemory app = false -> db app = Some d -> rentals app = Db.rentals d.
Proof. unfold rentals. now intros -> ->. Qed.

(** *** Creating a rental *)

Lemma car_for_durable app d v :
  useInMemory app = false -> db app = Some d ->
  car_for app v =
  hd_error (select_where (fun c => id_is (sqlInt v) (Car.id c)) (Db.cars d)).
Proof.
  intros Hm Hd. unfold car_for, id_param, cars.
  rewrite Hm, Hd. unfold select_where. now rewrite hd_error_filter.
Qed.

Lemma car_for_volatile app v :
  useInMemory app = true ->
  car_for app v = find (fun c => id_is (Number v) (Car.id c)) (inMemoryCars app).
Proof.
  intros Hm. unfold car_for, id_param, cars.
  now rewrite Hm.
Qed.

(** C7, as amended. The errors of Create are decided in this order: a field
    that is absent or falsy gives the required-fields validation error;
    otherwise an unknown car gives not-found; otherwise an unavailable car
    gives the conflict; otherwise a day count of 0 gives the invalid-dates
    validation error; otherwise the rental is created. *)
Theorem post_rentals_error_order (body : Post.body) (app : App) :
  ready app ->
  let r := snd (post_rentals body app) in
  let days := daysInclusive (Post.start_date body) (Post.end_date body) in
  (some_field_falsy body = true -> r = Err RequiredFields)
  /\ (some_field_falsy body = false ->
      match car_for app (Post.car_id body) with
      | None => r = Err CarNotFound
      | Some car =>
          if Car.available car =? 0 then r = Err CarNotAvailable
          else if days =? 0 then r = Err InvalidDates
          else exists c, r = Ok c
      end)
  /\ kind RequiredFields = ValidationError
  /\ kind CarNotFound = NotFoundError
  /\ kind CarNotAvailable = ConflictError
  /\ kind InvalidDates = ValidationError.
Proof.
  intros Hready r days. subst r days.
  repeat split; unfold post_rentals;
    fold (some_field_falsy body); intros Hf; rewrite Hf; [reflexivity|].
  destruct (useInMemory app) eqn:Hm.
  - rewrite (car_for_volatile app _ Hm).
    destruct (find _ (inMemoryCars app)) as [car|]; [|reflexivity].
    destruct (Car.available car =? 0); [reflexivity|].
    fold (daysInclusive (Post.start_date body) (Post.end_date body)).
    destruct (daysInclusive _ _ =? 0); [reflexivity | cbn [snd]; eauto].
  - destruct Hready as [Hr|[d Hd]]; [congruence|].
    rewrite (car_for_durable app d _ Hm Hd), Hd.
    destruct (select_where _ (Db.cars d)) as [|car rest]; [reflexivity|].
    cbn [hd_error]. destruct (Car.available car =? 0); [reflexivity|].
    destruct (daysInclusive _ _ =? 0) eqn:Hz.
    + apply Z.eqb_eq, daysInclusive_zero_iff in Hz.
      destruct (newDate (Post.start_date body)) as [a|];
        [destruct (newDate (Post.end_date body)) as [b|]|]; try reflexivity.
      apply Z.ltb_lt in Hz. now rewrite Hz.
    + apply Z.eqb_neq in Hz.
      destruct (newDate (Post.start_date body)) as [a|] eqn:Ha;
        [destruct (newDate (Post.end_date body)) as [b|] eqn:Hb|].
      * destruct (b <? a) eqn:Hlt; [|cbn [snd]; eauto].
        exfalso. apply Hz, daysInclusive_zero_iff. rewrite Ha, Hb.
        now apply Z.ltb_lt.
      * exfalso. apply Hz, daysInclusive_zero_iff. now rewrite Ha, Hb.
      * exfalso. apply Hz, daysInclusive_zero_iff. now rewrite Ha.
Qed.

(** *** Failures leave the store alone *)

Ltac failure_is_silent :=
  cbv zeta; repeat branch; intros H; inversion H; subst; reflexivity.

Lemma post_rentals_failure body app app' e :
  post_rentals body app = (app', Err e) -> app' = app.
Proof. unfold post_rentals. failure_is_silent. Qed.

Lemma put_rentals_failure id body app app' e :
  put_rentals id body app = (app', Err e) -> app' = app.
Proof. unfold put_rentals. failure_is_silent. Qed.

Lemma delete_rentals_failure id app app' e :
  delete_rentals id app = (app', Err e) -> app' = app.
Proof. unfold delete_rentals. failure_is_silent. Qed.

Lemma get_cars_silent app : fst (get_cars app) = app.
Proof. unfold get_cars. repeat branch; reflexivity. Qed.

Lemma cars_count_request app : cars (count_request app) = cars app.
Proof. reflexivity. Qed.

Lemma rentals_count_request app : rentals (count_request app) = rentals app.
Proof. reflexivity. Qed.

(** C10. A request that is answered with an error leaves the cars and the
    rentals exactly as they were: besides the request counter, nothing in
    the application changes.  This covers every failure of Create (field
    missing, unknown car, unavailable car, invalid dates), of Update
    (unknown rental, invalid end_date) and of Delete (unknown rental). *)
Theorem failed_request_is_atomic (req : Request) (app app' : App) (e : Error) :
  handle req app = (app', Err e) ->
  cars app' = cars app /\ rentals app' = rentals app
  /\ app' = count_request app.
Proof.
  intros H.
  assert (E : app' = count_request app).
  { unfold handle, respond in H. destruct req.
    - inversion H. apply get_cars_silent.
    - destruct (post_rentals body (count_request app)) as [a [c|e']] eqn:P;
        inversion H; subst. now apply post_rentals_failure in P.
    - destruct (put_rentals id body (count_request app)) as [a [c|e']] eqn:P;
        inversion H; subst. now apply put_rentals_failure in P.
    - destruct (delete_rentals id (count_request app)) as [a [c|e']] eqn:P;
        inversion H; subst. now apply delete_rentals_failure in P.
    - inversion H. }
  subst app'. auto using cars_count_request, rentals_count_request.
Qed.

(** *** Deleting a rental *)

Lemma filter_all {A} (p : A -> bool) (l : list A) :
  (forall x, In x l -> p x = true) -> filter p l = l.
Proof.
  induction l as [|x l IH]; simpl; intros H; [reflexivity|].
  rewrite (H x (or_introl eq_refl)). f_equal. apply IH. auto.
Qed.

Lemma find_filter_negb {A} (p : A -> bool) (l : list A) :
  find p (filter (fun x => negb (p x)) l) = None.
Proof.
  induction l as [|x l IH]; simpl; [reflexivity|].
  destruct (p x) eqn:E; simpl; [exact IH | now rewrite E].
Qed.

Lemma remove_first_unique {A} (g : A -> Z) (k : option Z) (l : list A) :
  NoDup (map g l) ->
  remove_first (fun x => id_is k (g x)) l
  = filter (fun x => negb (id_is k (g x))) l.
Proof.
  induction l as [|x l IH]; simpl; intros N; [reflexivity|].
  inversion N as [|? ? Hx N']; subst.
  destruct (id_is k (g x)) eqn:E; simpl.
  - symmetry. apply filter_all. intros y Hy.
    destruct (id_is k (g y)) eqn:E'; [|reflexivity].
    exfalso. apply Hx. destruct k as [k|]; [|discriminate]. simpl in E, E'.
    apply Z.eqb_eq in E, E'. rewrite E, <- E'. now apply in_map.
  - f_equal. now apply IH.
Qed.

Lemma length_filter_zero {A} (p : A -> bool) (l : list A) :
  (Z.of_nat (List.length (filter p l)) =? 0) = true -> find p l = None.
Proof.
  intros H. apply filter_nil_find. apply Z.eqb_eq in H.
  destruct (filter p l); [reflexivity | simpl in H; lia].
Qed.

Lemma length_filter_pos {A} (p : A -> bool) (l : list A) :
  (Z.of_nat (List.length (filter p l)) =? 0) = false ->
  exists x, find p l = Some x.
Proof.
  intros H. apply Z.eqb_neq in H. rewrite <- hd_error_filter.
  destruct (filter p l) as [|x xs]; [simpl in H; lia | now exists x].
Qed.

(** C8. Delete never touches the cars.  When no rental has the given id it
    answers not-found and changes nothing; otherwise it succeeds, whatever
    the rental's status, and the rentals are the former ones without that
    record. *)
Theorem delete_rentals_spec (id : JsValue) (app : App) :
  wf app ->
  let app' := fst (delete_rentals id app) in
  let r := snd (delete_rentals id app) in
  cars app' = cars app
  /\ match rental_for app id with
     | None => r = Err RentalNotFound /\ app' = app
     | Some gone =>
         (exists m, r = Ok m)
         /\ rentals app'
            = filter (fun x => negb (id_is (id_param app id) (Rental.id x)))
                     (rentals app)
         /\ rental_for app' id = None
     end.
Proof.
  intros [Hready [Hnodup _]] app' r. subst app' r.
  unfold rental_for, id_param, delete_rentals.
  destruct (useInMemory app) eqn:Hm.
  - rewrite (rentals_volatile app Hm) in *. rewrite (cars_volatile app Hm).
    destruct (find _ (inMemoryRentals app)) as [gone|] eqn:F; cbn [fst snd].
    + split; [reflexivity|]. split; [eauto|].
      unfold rentals; cbn.
      rewrite (remove_first_unique Rental.id _ _ Hnodup).
      split; [reflexivity | apply find_filter_negb].
    + split; [now apply cars_volatile | auto].
  - destruct Hready as [Hr|[d Hd]]; [congruence|].
    rewrite (rentals_durable app d Hm Hd) in *.
    rewrite (cars_durable app d Hm Hd). rewrite Hd.
    destruct (_ =? 0) eqn:Z0; cbn [fst snd].
    + unfold select_where in Z0. rewrite (length_filter_zero _ _ Z0).
      split; [now apply cars_durable | auto].
    + unfold select_where in Z0.
      destruct (length_filter_pos _ _ Z0) as [gone ->].
      split; [reflexivity|]. split; [eauto|].
      unfold rentals; cbn. unfold delete_where.
      split; [reflexivity | apply find_filter_negb].
Qed.

(** *** Updating a rental *)

Lemma rental_for_volatile app v :
  useInMemory app = true ->
  rental_for app v
  = find (fun r => id_is (Number v) (Rental.id r)) (inMemoryRentals app).
Proof. intros Hm. unfold rental_for, id_param, rentals. now rewrite Hm. Qed.

Lemma rental_for_durable app d v :
  useInMemory app = false -> db app = Some d ->
  rental_for app v
  = hd_error (select_where (fun r => id_is (sqlInt v) (Rental.id r))
                           (Db.rentals d)).
Proof.
  intros Hm Hd. unfold rental_for, id_param, rentals. rewrite Hm, Hd.
  unfold select_where. now rewrite hd_error_filter.
Qed.

Lemma refers_set_available (r : Rental.t) (a : Z) (c : Car.t) :
  (Car.id c =? Rental.car_id r) = true ->
  (Car.id (Car.set_available a c) =? Rental.car_id r) = true.
Proof. auto. Qed.

(** C3. An update of an existing rental that sets the status to 'returned'
    leaves the referenced car available; one that sets it to 'cancelled'
    leaves every car as it was.  With only a status in the body, both
    updates succeed. *)
Theorem put_status_availability
  (id : JsValue) (body : Put.body) (app : App) (rental : Rental.t) :
  ready app ->
  rental_for app id = Some rental ->
  let app' := fst (put_rentals id body app) in
  let r := snd (put_rentals id body app) in
  (truthy (Put.end_date body) = false ->
   Put.status body = JStr "returned" \/ Put.status body = JStr "cancelled" ->
   exists u, r = Ok u)
  /\ (Put.status body = JStr "returned" ->
      forall u, r = Ok u ->
      forall c, car_of app rental = Some c ->
      car_of app' rental = Some (Car.set_available 1 c)
      /\ Car.available (Car.set_available 1 c) = 1)
  /\ (Put.status body = JStr "cancelled" -> cars app' = cars app).
Proof.
  intros Hready Hfound app' r. subst app' r.
  unfold car_of, put_rentals.
  destruct (useInMemory app) eqn:Hm.
  - rewrite (rental_for_volatile app id Hm) in Hfound.
    rewrite (cars_volatile app Hm), Hfound. cbv zeta.
    split; [|split].
    + intros He Hs. rewrite He. cbn [fst snd]. eauto.
    + intros Hs u Hok c Hc.
      match type of Hok with snd (match ?D with _ => _ end) = _ =>
        destruct D as [rental1|e] end; [|discriminate].
      rewrite Hs. cbn [fst truthy strict_eq_str String.eqb andb negb].
      unfold cars. cbn.
      rewrite find_update_first by apply refers_set_available.
      rewrite Hc. split; reflexivity.
    + intros Hs.
      match goal with |- cars (fst (match ?D with _ => _ end)) = _ =>
        destruct D as [rental1|e] end;
        [|cbn [fst]; now apply cars_volatile].
      rewrite Hs. reflexivity.
  - destruct Hready as [Hr|[d Hd]]; [congruence|].
    rewrite (rental_for_durable app d id Hm Hd) in Hfound.
    rewrite (cars_durable app d Hm Hd), Hd. cbv zeta.
    destruct (select_where _ (Db.rentals d)) as [|row rest];
      [discriminate|]. injection Hfound as ->.
    split; [|split].
    + intros He Hs. rewrite He.
      destruct Hs as [-> | ->]; cbn; eauto.
    + intros Hs u Hok c Hc.
      match type of Hok with snd (match ?D with _ => _ end) = _ =>
        destruct D as [total|e] end; [|discriminate].
      rewrite Hs. cbn. unfold cars. cbn.
      rewrite find_update_where by apply refers_set_available.
      rewrite Hc. split; reflexivity.
    + intros Hs.
      match goal with |- cars (fst (match ?D with _ => _ end)) = _ =>
        destruct D as [total|e] end;
        [|cbn [fst]; now apply cars_durable].
      rewrite Hs. cbn. unfold cars. cbn. reflexivity.
Qed.

(** C6, as amended. Update checks no transition: whatever the current
    status of an existing rental, also 'returned' or 'cancelled', an update
    carrying one of the three statuses succeeds and the rental has that
    status afterwards. *)
Theorem put_status_unguarded
  (id : JsValue) (s : string) (app : App) (rental : Rental.t) :
  ready app ->
  rental_for app id = Some rental ->
  In s ["ongoing"; "returned"; "cancelled"]%string ->
  let app' := fst (put_rentals id (only_status s) app) in
  let r := snd (put_rentals id (only_status s) app) in
  (exists u, r = Ok u /\ Updated.status u = JStr s)
  /\ (exists rental', rental_for app' id = Some rental'
                      /\ Rental.status rental' = JStr s
                      /\ Rental.id rental' = Rental.id rental).
Proof.
  intros Hready Hfound Hs app' r. subst app' r.
  assert (Ht : truthy (JStr s) = true).
  { simpl in Hs. now repeat destruct Hs as [<-|Hs]. }
  assert (He : in_status_enum (JStr s) = true).
  { simpl in Hs. now repeat destruct Hs as [<-|Hs]. }
  unfold put_rentals, only_status. cbn [Put.status Put.end_date].
  destruct (useInMemory app) eqn:Hm.
  - rewrite (rental_for_volatile app id Hm) in Hfound. rewrite Hfound.
    cbv zeta. rewrite Ht. cbn [truthy fst snd]. split.
    + eexists. split; reflexivity.
    + exists (Rental.set_status (JStr s) rental).
      rewrite rental_for_volatile by reflexivity. cbn [inMemoryRentals].
      rewrite find_update_first.
      * rewrite Hfound. repeat split.
      * intros _ _. apply find_some in Hfound. apply Hfound.
  - destruct Hready as [Hr|[d Hd]]; [congruence|].
    rewrite (rental_for_durable app d id Hm Hd) in Hfound. rewrite Hd.
    destruct (select_where _ (Db.rentals d)) as [|row rest] eqn:Hsel;
      [discriminate|]. injection Hfound as ->.
    cbv zeta. unfold js_or. rewrite Ht, He. cbn [truthy negb fst snd].
    split.
    + eexists. split; reflexivity.
    + eexists. erewrite rental_for_durable by reflexivity. cbn [Db.rentals].
      unfold select_where. rewrite hd_error_filter, find_update_where by auto.
      rewrite <- hd_error_filter. fold (select_where
        (fun r => id_is (sqlInt id) (Rental.id r)) (Db.rentals d)).
      rewrite Hsel. cbn. repeat split.
Qed.

(** *** What a successful Create does *)

(** On success the cost is the daily rate times the inclusive day count,
    rounded to the cent; the rental is stored last, with status 'ongoing';
    the car is unavailable afterwards.  The response carries the status in
    the in-memory branch only. *)
Lemma post_rentals_success (body : Post.body) (app app' : App) (c : Created.t) :
  ready app ->
  post_rentals body app = (app', Ok c) ->
  exists car rental,
    car_for app (Post.car_id body) = Some car
    /\ Car.available car <> 0
    /\ 0 < daysInclusive (Post.start_date body) (Post.end_date body)
    /\ Created.total_cost c
       = toFixed2 (Car.daily_rate car
                   * inject_Z (daysInclusive (Post.start_date body)
                                             (Post.end_date body)))
    /\ car_for app' (Post.car_id body) = Some (Car.set_available 0 car)
    /\ rentals app' = rentals app ++ [rental]
    /\ Rental.id rental = Created.id c
    /\ Rental.car_id rental = Car.id car
    /\ Rental.total_cost rental = Created.total_cost c
    /\ Rental.status rental = JStr "ongoing"
    /\ Created.status c
       = if useInMemory app then JStr "ongoing" else JUndefined.
Proof.
  intros Hready. unfold post_rentals.
  destruct (negb _ || _ || _ || _); [discriminate|].
  destruct (useInMemory app) eqn:Hm.
  - rewrite (car_for_volatile app _ Hm), (rentals_volatile app Hm).
    destruct (find _ (inMemoryCars app)) as [car|] eqn:F; [|discriminate].
    destruct (Car.available car =? 0) eqn:Ha; [discriminate|].
    fold (daysInclusive (Post.start_date body) (Post.end_date body)).
    destruct (daysInclusive _ _ =? 0) eqn:Hz; [discriminate|].
    intros H. injection H as <- <-. eexists car, _.
    apply Z.eqb_neq in Ha, Hz.
    repeat split; try reflexivity; try assumption.
    + pose proof (proj1 (daysInclusive_zero_iff newDate (Post.start_date body)
                           (Post.end_date body))) as Z0.
      destruct (newDate (Post.start_date body)) as [a|] eqn:Ea;
        [destruct (newDate (Post.end_date body)) as [b|] eqn:Eb|];
        try (exfalso; apply Hz; unfold daysInclusive; now rewrite Ea, ?Eb).
      destruct (Z.ltb_spec b a) as [L|L].
      * exfalso. apply Hz. unfold daysInclusive. rewrite Ea, Eb.
        apply Z.ltb_lt in L. now rewrite L.
      * destruct (daysInclusive_valid newDate _ _ a b Ea Eb L). lia.
    + rewrite car_for_volatile by reflexivity. cbn [inMemoryCars].
      rewrite find_update_first by auto. now rewrite F.
  - destruct Hready as [Hr|[d Hd]]; [congruence|].
    rewrite (car_for_durable app d _ Hm Hd), (rentals_durable app d Hm Hd), Hd.
    destruct (select_where _ (Db.cars d)) as [|car rest] eqn:Hsel;
      [discriminate|].
    destruct (Car.available car =? 0) eqn:Ha; [discriminate|].
    destruct (newDate (Post.start_date body)) as [a|] eqn:Ea;
      [destruct (newDate (Post.end_date body)) as [b|] eqn:Eb|];
      try discriminate.
    destruct (b <? a) eqn:L; [discriminate|].
    rewrite (inline_days newDate _ _ a b Ea Eb L).
    intros H. injection H as <- <-. eexists car, _.
    apply Z.eqb_neq in Ha. apply Z.ltb_ge in L.
    repeat split; try reflexivity; try assumption.
    + destruct (daysInclusive_valid newDate _ _ a b Ea Eb L). lia.
    + erewrite car_for_durable by reflexivity. cbn [Db.cars].
      unfold select_where in *. rewrite hd_error_filter.
      rewrite find_update_where by auto.
      rewrite <- hd_error_filter, Hsel. reflexivity.
Qed.

(** *** Revenue *)

Lemma fold_add_acc (l : list Z) (z : Z) :
  fold_left Z.add l z = z + fold_left Z.add l 0.
Proof.
  revert z. induction l as [|x l IH]; intros z; simpl; [lia|].
  rewrite IH, (IH x). lia.
Qed.

Lemma sum_list_cons (x : Z) (l : list Z) : sum_list (x :: l) = x + sum_list l.
Proof. unfold sum_list. simpl. apply fold_add_acc. Qed.

Lemma fold_left_add_shift {A} (g : A -> Z) (l : list A) (z : Z) :
  fold_left (fun sum r => sum + g r) l z = z + sum_list (map g l).
Proof.
  revert z. induction l as [|x l IH]; intros z; simpl.
  - unfold sum_list. simpl. lia.
  - rewrite IH, sum_list_cons. lia.
Qed.

(** The durable store reports the revenue of the ongoing and returned
    rentals. *)
Lemma durable_revenue app d :
  useInMemory app = false -> db app = Some d ->
  totalRevenue (metrics (updateMetrics app)) = billable_revenue (rentals app).
Proof.
  intros Hm Hd. unfold updateMetrics. rewrite (rentals_durable app d Hm Hd).
  now rewrite Hm, Hd.
Qed.

(** The in-memory store reports the total cost of all its rentals. *)
Lemma volatile_revenue app :
  useInMemory app = true ->
  totalRevenue (metrics (updateMetrics app))
  = sum_list (map Rental.total_cost (rentals app)).
Proof.
  intros Hm. unfold updateMetrics. rewrite (rentals_volatile app Hm), Hm.
  cbn [metrics totalRevenue]. now rewrite fold_left_add_shift.
Qed.

(** *** Rental ids stay unique *)

Lemma map_update_first_const {A B} (g : A -> B) (p : A -> bool) (r' : A) l :
  (forall r, find p l = Some r -> g r' = g r) ->
  map g (update_first p (fun _ => r') l) = map g l.
Proof.
  induction l as [|x l IH]; simpl; intros H; [reflexivity|].
  destruct (p x); simpl; [now rewrite (H x eq_refl) | now rewrite IH].
Qed.

Lemma in_map_filter {A B} (g : A -> B) (q : A -> bool) (l : list A) (y : B) :
  In y (map g (filter q l)) -> In y (map g l).
Proof.
  rewrite !in_map_iff. intros [x [E I]]. apply filter_In in I.
  exists x. tauto.
Qed.

Lemma NoDup_map_filter {A B} (g : A -> B) (q : A -> bool) (l : list A) :
  NoDup (map g l) -> NoDup (map g (filter q l)).
Proof.
  induction l as [|x l IH]; simpl; intros N; [constructor|].
  inversion N as [|? ? Hx N']; subst.
  destruct (q x); simpl; auto.
  constructor; auto. intros I. apply Hx. eapply in_map_filter; eauto.
Qed.

Lemma Forall_filter {A} (P : A -> Prop) (q : A -> bool) (l : list A) :
  Forall P l -> Forall P (filter q l).
Proof.
  rewrite !Forall_forall. intros H x I. apply filter_In in I. apply H, I.
Qed.

Lemma NoDup_snoc_fresh (ids : list Z) (n : Z) :
  NoDup ids -> Forall (fun i => i < n) ids -> NoDup (ids ++ [n]).
Proof.
  intros N F. induction N as [|i ids Hi N IH]; simpl.
  - constructor; [intros [] | constructor].
  - inversion F as [|? ? Lt F']; subst. constructor; [|auto].
    rewrite in_app_iff. intros [I|[E|[]]]; [auto | lia].
Qed.

(** The id the in-memory store allocates exceeds every id it holds. *)
Lemma volatile_newId_fresh (ids : list Z) :
  Forall (fun i => i < match ids with
                       | [] => 1
                       | x :: xs => Math_max x xs + 1
                       end) ids.
Proof.
  destruct ids as [|x xs]; [constructor|].
  destruct (Math_max_ge xs x) as [H1 H2].
  constructor; [lia|]. eapply Forall_impl; [|exact H2]. simpl. intros; lia.
Qed.

Lemma wf_count_request app : wf app -> wf (count_request app).
Proof. unfold wf. auto. Qed.

Lemma wf_post_rentals body app : wf app -> wf (fst (post_rentals body app)).
Proof.
  intros W. destruct (post_rentals body app) as [app' [c|e]] eqn:P;
    [|apply post_rentals_failure in P; now subst]. cbn [fst].
  destruct W as (Hready & Hnodup & Hai). revert P. unfold post_rentals.
  destruct (negb _ || _ || _ || _); [discriminate|].
  destruct (useInMemory app) eqn:Hm.
  - rewrite (rentals_volatile app Hm) in Hnodup.
    destruct (find _ (inMemoryCars app)) as [car|]; [|discriminate].
    destruct (Car.available car =? 0); [discriminate|].
    destruct (_ =? 0); [discriminate|].
    intros P. injection P as <- <-.
    split; [now left|]. split; [|discriminate].
    unfold rentals. cbn. rewrite map_app. cbn [map Rental.id].
    apply NoDup_snoc_fresh; [assumption | apply volatile_newId_fresh].
  - destruct Hready as [Hr|[d Hd]]; [congruence|].
    rewrite (rentals_durable app d Hm Hd) in Hnodup.
    specialize (Hai eq_refl d Hd). rewrite Hd.
    destruct (select_where _ (Db.cars d)) as [|car rest]; [discriminate|].
    destruct (Car.available car =? 0); [discriminate|].
    destruct (newDate (Post.start_date body)) as [a|]; [|discriminate].
    destruct (newDate (Post.end_date body)) as [b|]; [|discriminate].
    destruct (b <? a); [discriminate|].
    intros P. injection P as <- <-.
    split; [right; cbn; eauto|]. unfold rentals. cbn. split.
    + rewrite map_app. cbn [map Rental.id].
      apply NoDup_snoc_fresh; [assumption|].
      rewrite Forall_forall in *. intros i I. apply in_map_iff in I.
      destruct I as [r [<- I]]. auto.
    + intros _ d' E. injection E as <-. cbn.
      apply Forall_app. split.
      * eapply Forall_impl; [|exact Hai]. simpl. intros; lia.
      * constructor; [cbn; lia | constructor].
Qed.

Lemma wf_put_rentals id body app : wf app -> wf (fst (put_rentals id body app)).
Proof.
  intros W. destruct (put_rentals id body app) as [app' [u|e]] eqn:P;
    [|apply put_rentals_failure in P; now subst]. cbn [fst].
  destruct W as (Hready & Hnodup & Hai). revert P. unfold put_rentals.
  destruct (useInMemory app) eqn:Hm.
  - rewrite (rentals_volatile app Hm) in Hnodup.
    destruct (find _ (inMemoryRentals app)) as [rental|] eqn:F; [|discriminate].
    cbv zeta.
    match goal with |- match ?D with _ => _ end = _ -> _ =>
      assert (Hid : forall r1, D = inl r1 -> Rental.id r1 = Rental.id rental)
        by (intros r1; repeat branch; intros E; inversion E; reflexivity);
      destruct D as [rental1|e] end; [|discriminate].
    specialize (Hid rental1 eq_refl).
    intros P. injection P as <- <-.
    split; [now left|]. split; [|discriminate].
    unfold rentals. cbn. rewrite map_update_first_const; [assumption|].
    intros r Hr. rewrite F in Hr. injection Hr as <-.
    rewrite <- Hid. now destruct (truthy (Put.status body)).
  - destruct Hready as [Hr|[d Hd]]; [congruence|].
    rewrite (rentals_durable app d Hm Hd) in Hnodup.
    specialize (Hai eq_refl d Hd). rewrite Hd.
    destruct (select_where _ (Db.rentals d)) as [|rental rest]; [discriminate|].
    cbv zeta.
    match goal with |- match ?D with _ => _ end = _ -> _ =>
      destruct D as [total|e] end; [|discriminate].
    destruct (negb _); [discriminate|].
    intros P. injection P as <- <-.
    split; [right; cbn; eauto|]. unfold rentals. cbn. split.
    + rewrite map_update_where; auto.
    + intros _ d' E. injection E as <-. cbn.
      rewrite Forall_forall in *. intros r I. unfold update_where in I.
      apply in_map_iff in I. destruct I as [r0 [<- I]].
      specialize (Hai r0 I). now destruct (id_is _ _).
Qed.

Lemma wf_delete_rentals id app : wf app -> wf (fst (delete_rentals id app)).
Proof.
  intros W. destruct (delete_rentals id app) as [app' [u|e]] eqn:P;
    [|apply delete_rentals_failure in P; now subst]. cbn [fst].
  destruct W as (Hready & Hnodup & Hai). revert P. unfold delete_rentals.
  destruct (useInMemory app) eqn:Hm.
  - rewrite (rentals_volatile app Hm) in Hnodup.
    destruct (find _ (inMemoryRentals app)); [|discriminate].
    intros P. injection P as <- <-.
    split; [now left|]. split; [|discriminate].
    unfold rentals. cbn.
    rewrite (remove_first_unique Rental.id _ _ Hnodup).
    now apply NoDup_map_filter.
  - destruct Hready as [Hr|[d Hd]]; [congruence|].
    rewrite (rentals_durable app d Hm Hd) in Hnodup.
    specialize (Hai eq_refl d Hd). rewrite Hd.
    destruct (_ =? 0); [discriminate|].
    intros P. injection P as <- <-.
    split; [right; cbn; eauto|]. unfold rentals. cbn. split.
    + now apply NoDup_map_filter.
    + intros _ d' E. injection E as <-. cbn. now apply Forall_filter.
Qed.

Lemma wf_updateMetrics app : wf app -> wf (updateMetrics app).
Proof.
  assert (E : exists m, updateMetrics app
                        = mkApp m (db app) (useInMemory app)
                                (inMemoryCars app) (inMemoryRentals app)).
  { unfold updateMetrics. destruct (useInMemory app) eqn:Hm; [eauto|].
    destruct (db app) eqn:Hd; [eauto|]. exists (metrics app).
    rewrite <- Hd, <- Hm. now destruct app. }
  destruct E as [m ->]. unfold wf, ready, rentals. auto.
Qed.

(** Every request keeps the store well formed ... *)
Lemma wf_handle req app : wf app -> wf (fst (handle req app)).
Proof.
  intros W. apply wf_count_request in W. unfold handle, respond.
  destruct req; cbn [fst].
  - now rewrite get_cars_silent.
  - now apply wf_post_rentals.
  - now apply wf_put_rentals.
  - now apply wf_delete_rentals.
  - now apply wf_updateMetrics.
Qed.

Lemma wf_serve reqs : forall app, wf app -> wf (fst (serve reqs app)).
Proof.
  induction reqs as [|req reqs IH]; intros app W; [exact W|].
  simpl. pose proof (wf_handle req app W) as W1.
  destruct (handle req app) as [app1 r]. specialize (IH app1 W1).
  now destruct (serve reqs app1).
Qed.

(** ... and both seeded stores are well formed to begin with. *)
Lemma wf_initDB_fallback : wf (initDB None initial).
Proof. split; [now left|]. split; [constructor | discriminate]. Qed.

Lemma wf_initDB_fresh : wf (initDB (Some (Db.mk [] 1 [] 1)) initial).
Proof.
  split; [right; cbn; eauto|]. split; [constructor|].
  intros _ d E. injection E as <-. constructor.
Qed.

(** *** Ids of the durable store *)

Ltac run_handler E Hm :=
  cbv zeta in E; rewrite Hm in E;
  repeat match type of E with
         | context [match ?x with _ => _ end] => destruct x eqn:?
         end;
  injection E as <- <-;
  unfold counter; cbn [db useInMemory]; rewrite ?Hm;
  repeat match goal with H : db _ = _ |- _ => rewrite H end;
  cbn [Db.rentals_auto_increment]; auto.

Lemma durable_post_counter body app app' r :
  useInMemory app = false ->
  post_rentals body app = (app', r) ->
  useInMemory app' = false
  /\ match r with
     | Ok c => Created.id c = counter app /\ counter app' = counter app + 1
     | Err _ => counter app' = counter app
     end.
Proof. intros Hm E. unfold post_rentals in E. run_handler E Hm. Qed.

Lemma durable_put_counter id body app app' r :
  useInMemory app = false ->
  put_rentals id body app = (app', r) ->
  useInMemory app' = false /\ counter app' = counter app.
Proof. intros Hm E. unfold put_rentals in E. run_handler E Hm. Qed.

Lemma durable_delete_counter id app app' r :
  useInMemory app = false ->
  delete_rentals id app = (app', r) ->
  useInMemory app' = false /\ counter app' = counter app.
Proof. intros Hm E. unfold delete_rentals in E. run_handler E Hm. Qed.

Lemma durable_metrics_counter app :
  useInMemory app = false ->
  useInMemory (updateMetrics app) = false
  /\ counter (updateMetrics app) = counter app.
Proof.
  intros Hm. unfold updateMetrics, counter. rewrite Hm.
  destruct (db app) eqn:Hd; cbn; rewrite ?Hd; auto.
Qed.

Lemma durable_handle_counter req app :
  useInMemory app = false ->
  let app' := fst (handle req app) in
  useInMemory app' = false
  /\ match snd (handle req app) with
     | Ok (CreatedRental c) =>
         Created.id c = counter app /\ counter app' = counter app + 1
     | _ => counter app' = counter app
     end.
Proof.
  intros Hm. cbv zeta. unfold handle, respond.
  assert (Hm' : useInMemory (count_request app) = false) by exact Hm.
  change (counter app) with (counter (count_request app)).
  destruct req; cbn [fst snd].
  - rewrite get_cars_silent. split; [exact Hm'|].
    now destruct (snd (get_cars (count_request app))).
  - destruct (post_rentals body _) as [app1 r] eqn:E.
    destruct (durable_post_counter _ _ _ _ Hm' E) as [H1 H2].
    split; [exact H1|]. now destruct r.
  - destruct (put_rentals id body _) as [app1 r] eqn:E.
    destruct (durable_put_counter _ _ _ _ _ Hm' E) as [H1 H2].
    split; [exact H1|]. now destruct r.
  - destruct (delete_rentals id _) as [app1 r] eqn:E.
    destruct (durable_delete_counter _ _ _ _ Hm' E) as [H1 H2].
    split; [exact H1|]. now destruct r.
  - apply (durable_metrics_counter _ Hm').
Qed.

(** In the durable store the ids a session hands out increase strictly
    and start at the counter. *)
Lemma durable_ids_increase reqs : forall app,
  useInMemory app = false ->
  let rs := snd (serve reqs app) in
  Forall (fun i => counter app <= i) (created_ids rs)
  /\ StronglySorted Z.lt (created_ids rs).
Proof.
  induction reqs as [|req reqs IH]; intros app Hm; simpl.
  - split; constructor.
  - destruct (durable_handle_counter req app Hm) as [Hm' Hc].
    destruct (handle req app) as [app1 r]. cbn [fst snd] in *.
    specialize (IH app1 Hm').
    destruct (serve reqs app1) as [app2 rs]. cbn [fst snd] in *.
    destruct IH as [Hge Hsorted].
    assert (Mono : counter app <= counter app1)
      by (destruct r as [[]|]; lia).
    assert (Hge' : Forall (fun i => counter app <= i) (created_ids rs))
      by (eapply Forall_impl; [|exact Hge]; simpl; intros; lia).
    destruct r as [[l|c|u|m|m]|e]; cbn [created_ids]; auto.
    destruct Hc as [Hid Hnext]. split.
    + constructor; [lia | exact Hge'].
    + constructor; [exact Hsorted|].
      eapply Forall_impl; [|exact Hge]. simpl. intros; lia.
Qed.

End Facts.

(** ** The properties on the seeded stores *)

(** *** The examples of tests/utils.test.js and of the specification *)

Example same_day :
  daysInclusive Sample.newDate (JStr "2025-12-09") (JStr "2025-12-09") = 1.
Proof. reflexivity. Qed.

Example three_days :
  daysInclusive Sample.newDate (JStr "2025-12-09") (JStr "2025-12-11") = 3.
Proof. reflexivity. Qed.

Example invalid_start :
  daysInclusive Sample.newDate (JStr "invalid") (JStr "2025-12-11") = 0.
Proof. reflexivity. Qed.

Example end_before_start :
  daysInclusive Sample.newDate (JStr "2025-12-12") (JStr "2025-12-11") = 0.
Proof. reflexivity. Qed.

Example cost_105 : toFixed2 ((35 # 1) * inject_Z 3) = 10500.
Proof. reflexivity. Qed.

Example cost_187_50 : toFixed2 ((75 # 2) * inject_Z 5) = 18750.
Proof. reflexivity. Qed.

(** The end-to-end scenario of the specification, on the in-memory store. *)
Example scenario :
  snd (sample_serve
         [ POST_rentals alice;
           PUT_rentals (JStr "1") (Put.mk JUndefined (JStr "2025-01-05"));
           PUT_rentals (JStr "1") (only_status "returned");
           GET_cars;
           GET_metrics ] volatile)
  = [ Ok (CreatedRental
            (Created.mk 1 (JNum 1) (JStr "Alice") (JStr "2025-01-01")
                        (JStr "2025-01-03") 10500 (JStr "ongoing")
                        "Rental created (in-memory)"));
      Ok (UpdatedRental
            (Updated.mk "Rental updated (in-memory)" (JNum 1) (JStr "ongoing")
                        (JStr "2025-01-05") 17500));
      Ok (UpdatedRental
            (Updated.mk "Rental updated (in-memory)" (JNum 1) (JStr "returned")
                        (JStr "2025-01-05") 17500));
      Ok (CarList (sampleCars 1));
      Ok (MetricsSnapshot (Snapshot.mk 1 0 1 17500 5)) ].
Proof. vm_compute. reflexivity. Qed.

(** *** C1 *)

(** C1. At the request of the API tests, the durable branch creates the
    rental (cost 105.00, car 1 unavailable afterwards, row stored as
    'ongoing') but its response carries no status, where the in-memory
    branch answers 'ongoing'. *)
Theorem durable_created_has_no_status :
  (exists app' c,
      sample_handle (POST_rentals alice) durable = (app', Ok (CreatedRental c))
      /\ Created.total_cost c = 10500
      /\ map Car.available (cars app') = [0; 1; 1]
      /\ map Rental.status (rentals app') = [JStr "ongoing"]
      /\ Created.status c = JUndefined)
  /\ (exists app' c,
      sample_handle (POST_rentals alice) volatile = (app', Ok (CreatedRental c))
      /\ Created.total_cost c = 10500
      /\ map Car.available (cars app') = [0; 1; 1]
      /\ map Rental.status (rentals app') = [JStr "ongoing"]
      /\ Created.status c = JStr "ongoing").
Proof. split; do 2 eexists; vm_compute; repeat split. Qed.

(** *** C4 *)

(** C4. In the in-memory store a cancelled rental still counts: after a
    rental of 105.00 is created and cancelled, no rental is ongoing or
    returned, yet the metrics report a revenue of 105.00. *)
Theorem volatile_revenue_counts_cancelled :
  let run := sample_serve cancel_session volatile in
  map Rental.status (rentals (fst run)) = [JStr "cancelled"]
  /\ billable_revenue (rentals (fst run)) = 0
  /\ nth_error (snd run) 2
     = Some (Ok (MetricsSnapshot (Snapshot.mk 1 0 1 10500 3))).
Proof. vm_compute. repeat split. Qed.

(** *** C5 *)

(** C5. The same three requests from the same seed give two different
    aggregates: the in-memory store reports a revenue of 105.00, the
    durable store a revenue of 0.00. *)
Theorem stores_disagree_on_revenue :
  nth_error (snd (sample_serve cancel_session volatile)) 2
  = Some (Ok (MetricsSnapshot (Snapshot.mk 1 0 1 10500 3)))
  /\ nth_error (snd (sample_serve cancel_session durable)) 2
     = Some (Ok (MetricsSnapshot (Snapshot.mk 1 0 1 0 3)))
  /\ map Car.id (cars volatile) = map Car.id (cars durable)
  /\ map Car.daily_rate (cars volatile) = map Car.daily_rate (cars durable).
Proof. vm_compute. repeat split. Qed.

(** *** C9 *)

(** C9. After the only rental of the in-memory store is deleted, the next
    rental gets its id again; the durable store hands out 2. *)
Theorem volatile_reuses_deleted_id :
  (exists c1 c2 m,
      snd (sample_serve recreate_session volatile)
      = [Ok (CreatedRental c1); Ok (Deleted m); Ok (CreatedRental c2)]
      /\ Created.id c1 = 1 /\ Created.id c2 = 1)
  /\ (exists c1 c2 m,
      snd (sample_serve recreate_session durable)
      = [Ok (CreatedRental c1); Ok (Deleted m); Ok (CreatedRental c2)]
      /\ Created.id c1 = 1 /\ Created.id c2 = 2).
Proof. split; do 3 eexists; vm_compute; repeat split. Qed.

(** *** C6 *)

(** A returned rental is cancelled by a later update, in both stores. *)
Lemma returned_rental_gets_cancelled :
  let cancel := PUT_rentals (JStr "1") (only_status "cancelled") in
  (map Rental.status (rentals (fst (sample_serve return_session volatile)))
   = [JStr "returned"]
   /\ map Rental.status
        (rentals (fst (sample_serve (return_session ++ [cancel]) volatile)))
      = [JStr "cancelled"])
  /\ (map Rental.status (rentals (fst (sample_serve return_session durable)))
      = [JStr "returned"]
      /\ map Rental.status
           (rentals (fst (sample_serve (return_session ++ [cancel]) durable)))
         = [JStr "cancelled"])
  /\ JStr "cancelled" <> JStr "returned".
Proof. vm_compute. repeat split. discriminate. Qed.

(** *** C7 *)

(** A body with all four fields, whose [car_id] is 0, names no car; it is
    answered with the required-fields error, not with not-found. *)
Lemma zero_car_id_is_rejected_as_missing :
  Post.car_id zero_car <> JUndefined
  /\ Post.renter_name zero_car <> JUndefined
  /\ Post.start_date zero_car <> JUndefined
  /\ Post.end_date zero_car <> JUndefined
  /\ car_for Sample.Number Sample.sqlInt volatile (Post.car_id zero_car) = None
  /\ snd (post_rentals Sample.Number Sample.newDate Sample.sqlInt Sample.dateColumn
                       zero_car volatile) = Err RequiredFields
  /\ kind RequiredFields <> NotFoundError.
Proof. vm_compute. repeat split; discriminate. Qed.

(** *** The general theorems at the seeded stores *)


Lemma ready_rented : ready rented.
Proof. left. reflexivity. Qed.

Lemma wf_rented : wf rented.
Proof.
  split; [exact ready_rented|]. split; [|discriminate].
  vm_compute. constructor; [intros [] | constructor].
Qed.

(** The car Alice holds is refused before the dates are looked at. *)
Lemma post_rentals_error_order_witness :
  ready rented
  /\ daysInclusive Sample.newDate (Post.start_date backwards)
                   (Post.end_date backwards) = 0
  /\ snd (post_rentals Sample.Number Sample.newDate Sample.sqlInt Sample.dateColumn
                       backwards rented) = Err CarNotAvailable
  /\ kind CarNotAvailable = ConflictError.
Proof.
  pose proof (post_rentals_error_order Sample.Number Sample.newDate Sample.sqlInt
                Sample.dateColumn backwards rented ready_rented) as H.
  cbv zeta in H. destruct H as (_ & Order & _ & _ & Conflict & _).
  specialize (Order eq_refl).
  split; [exact ready_rented|]. split; [reflexivity|].
  split; [exact Order | exact Conflict].
Defined.

Lemma failed_request_is_atomic_witness :
  cars (fst (sample_handle (POST_rentals backwards) rented)) = cars rented
  /\ rentals (fst (sample_handle (POST_rentals backwards) rented))
     = rentals rented.
Proof.
  destruct (failed_request_is_atomic Sample.Number Sample.newDate Sample.sqlInt
              Sample.dateColumn (POST_rentals backwards) rented
              (fst (sample_handle (POST_rentals backwards) rented))
              CarNotAvailable eq_refl) as (C & R & _).
  split; [exact C | exact R].
Defined.

Lemma delete_rentals_spec_witness :
  wf rented
  /\ cars (fst (delete_rentals Sample.Number Sample.sqlInt (JStr "1") rented))
     = cars rented
  /\ rentals (fst (delete_rentals Sample.Number Sample.sqlInt (JStr "1") rented))
     = [].
Proof.
  pose proof (delete_rentals_spec Sample.Number Sample.sqlInt (JStr "1") rented
                wf_rented) as H.
  cbv zeta in H. destruct H as (C & D).
  change (rental_for Sample.Number Sample.sqlInt rented (JStr "1"))
    with (Some alice_rental) in D.
  destruct D as (_ & R & _).
  split; [exact wf_rented|]. split; [exact C | exact R].
Defined.

Lemma put_status_availability_witness :
  ready rented
  /\ rental_for Sample.Number Sample.sqlInt rented (JStr "1") = Some alice_rental
  /\ map Car.available (cars rented) = [0; 1; 1]
  /\ car_of (fst (put_rentals Sample.Number Sample.newDate Sample.sqlInt
                              Sample.dateColumn (JStr "1")
                              (only_status "returned") rented))
            alice_rental
     = Some (Car.mk 1 "Toyota" "Corolla" 2020 (35 # 1) 1)
  /\ cars (fst (put_rentals Sample.Number Sample.newDate Sample.sqlInt
                            Sample.dateColumn (JStr "1")
                            (only_status "cancelled") rented))
     = cars rented.
Proof.
  destruct (put_status_availability Sample.Number Sample.newDate Sample.sqlInt
              Sample.dateColumn (JStr "1") (only_status "returned") rented
              alice_rental ready_rented eq_refl) as (_ & Returned & _).
  destruct (put_status_availability Sample.Number Sample.newDate Sample.sqlInt
              Sample.dateColumn (JStr "1") (only_status "cancelled") rented
              alice_rental ready_rented eq_refl) as (_ & _ & Cancelled).
  destruct (Returned eq_refl _ eq_refl
              (Car.mk 1 "Toyota" "Corolla" 2020 (35 # 1) 0) eq_refl)
    as (Free & _).
  split; [exact ready_rented|]. split; [reflexivity|].
  split; [reflexivity|]. split; [exact Free | exact (Cancelled eq_refl)].
Defined.

Lemma put_status_unguarded_witness :
  ready given_back
  /\ map Rental.status (rentals given_back) = [JStr "returned"]
  /\ exists rental',
       rental_for Sample.Number Sample.sqlInt
         (fst (put_rentals Sample.Number Sample.newDate Sample.sqlInt
                           Sample.dateColumn (JStr "1")
                           (only_status "cancelled") given_back))
         (JStr "1") = Some rental'
       /\ Rental.status rental' = JStr "cancelled".
Proof.
  assert (R : ready given_back) by (left; reflexivity).
  destruct (put_status_unguarded Sample.Number Sample.newDate Sample.sqlInt
              Sample.dateColumn (JStr "1") "cancelled" given_back
              (Rental.set_status (JStr "returned") alice_rental) R eq_refl)
    as (_ & rental' & Found & Status & _).
  - right. right. left. reflexivity.
  - split; [exact R|]. split; [reflexivity|].
    exists rental'. split; assumption.
Defined.

(** ** Further properties of the handlers *)

Section Coverage.

#[local] Set Default Proof Using "Type".

Variable Number : JsValue -> option Z.
Variable newDate : JsValue -> option Z.
Variable sqlInt : JsValue -> option Z.
Variable dateColumn : JsValue -> JsValue.

Local Abbreviation daysInclusive := (daysInclusive newDate).
Local Abbreviation post_rentals :=
  (post_rentals Number newDate sqlInt dateColumn).
Local Abbreviation put_rentals := (put_rentals Number newDate sqlInt dateColumn).
Local Abbreviation delete_rentals := (delete_rentals Number sqlInt).
Local Abbreviation handle := (handle Number newDate sqlInt dateColumn).
Local Abbreviation serve := (serve Number newDate sqlInt dateColumn).
Local Abbreviation id_param := (id_param Number sqlInt).
Local Abbreviation car_for := (car_for Number sqlInt).
Local Abbreviation rental_for := (rental_for Number sqlInt).
Local Abbreviation priced := (priced newDate).
Local Abbreviation costs_consistent := (costs_consistent newDate).

(** Follows a handler down the path that produced [E : handler ... = (app', r)]. *)
Ltac crack E :=
  cbv zeta in E;
  repeat match type of E with
         | context [match ?x with _ => _ end] => destruct x eqn:?
         end;
  injection E as <- <-.

Ltac branch :=
  match goal with
  | |- context [match ?x with _ => _ end] => destruct x eqn:?
  end.

(** Rewrites the views of the store with what is known of the mode. *)
Ltac views :=
  unfold fleet, cars, rentals; cbn [useInMemory db inMemoryCars inMemoryRentals
                                     Db.cars Db.rentals metrics];
  repeat match goal with
         | H : useInMemory _ = _ |- _ => rewrite H
         | H : db _ = _ |- _ => rewrite H
         end.

(** *** What a request does to the cars: it sets flags, nothing else *)

Ltac cars_done :=
  (split; [cbn; congruence|]);
  (split; [views; constructor; auto
          | intros; first [assumption | solve [left; cbn; congruence]
                           | solve [right; cbn; eauto]]]).

Lemma post_rentals_cars body app app' r :
  post_rentals body app = (app', r) ->
  useInMemory app' = useInMemory app
  /\ reflagged (cars app) (cars app')
  /\ (ready app -> ready app').
Proof. intros E. unfold post_rentals in E. crack E; cars_done. Qed.

Lemma put_rentals_cars id body app app' r :
  put_rentals id body app = (app', r) ->
  useInMemory app' = useInMemory app
  /\ reflagged (cars app) (cars app')
  /\ (ready app -> ready app').
Proof. intros E. unfold put_rentals in E. crack E; cars_done. Qed.

Lemma delete_rentals_cars id app app' r :
  delete_rentals id app = (app', r) ->
  useInMemory app' = useInMemory app
  /\ cars app' = cars app
  /\ (ready app -> ready app').
Proof.
  intros E. unfold delete_rentals in E. crack E;
    (split; [cbn; congruence|]);
    (split; [views; reflexivity
            | intros; first [assumption | solve [left; cbn; congruence]
                           | solve [right; cbn; eauto]]]).
Qed.

Lemma updateMetrics_frame app :
  exists m, updateMetrics app
            = mkApp m (db app) (useInMemory app) (inMemoryCars app)
                    (inMemoryRentals app)
            /\ requestCount m = requestCount (metrics app).
Proof.
  unfold updateMetrics. destruct (useInMemory app) eqn:Hm; [eauto|].
  destruct (db app) eqn:Hd; [eauto|]. exists (metrics app).
  rewrite <- Hd, <- Hm. split; [now destruct app | reflexivity].
Qed.

Lemma handle_cars req app :
  let app' := fst (handle req app) in
  useInMemory app' = useInMemory app
  /\ reflagged (cars app) (cars app')
  /\ (ready app -> ready app').
Proof.
  cbv zeta. unfold handle, respond. destruct req; cbn [fst].
  - rewrite get_cars_silent. repeat split; [constructor | auto].
  - destruct (post_rentals body _) as [a r] eqn:E.
    apply post_rentals_cars in E. exact E.
  - destruct (put_rentals id body _) as [a r] eqn:E.
    apply put_rentals_cars in E. exact E.
  - destruct (delete_rentals id _) as [a r] eqn:E.
    apply delete_rentals_cars in E. destruct E as (M & C & R).
    cbn [fst]. repeat split; [exact M | | exact R].
    change (cars app) with (cars (count_request app)). rewrite <- C.
    constructor.
  - unfold get_metrics. cbn [fst].
    destruct (updateMetrics_frame (count_request app)) as [m [-> _]].
    repeat split; [constructor | auto].
Qed.

Lemma reflagged_identity l l' :
  reflagged l l' -> map car_identity l' = map car_identity l.
Proof.
  intros [|p a _|p a _]; [reflexivity| |].
  - induction l as [|x l IH]; simpl; [reflexivity|].
    destruct (p x); simpl; [reflexivity | now rewrite IH].
  - now apply map_update_where.
Qed.

Lemma reflagged_binary l l' :
  reflagged l l' ->
  Forall (fun c => Car.available c = 0 \/ Car.available c = 1) l ->
  Forall (fun c => Car.available c = 0 \/ Car.available c = 1) l'.
Proof.
  intros [|p a Ha|p a Ha] F; [exact F| |].
  - induction F as [|x l Hx F IH]; simpl; [constructor|].
    destruct (p x); constructor; auto.
  - unfold update_where. apply Forall_map.
    eapply Forall_impl; [|exact F]. intros c Hc. now destruct (p c).
Qed.

(** Whatever is looked up by id is the same car, up to its flag. *)
Lemma reflagged_find l l' (k : Z) :
  reflagged l l' ->
  option_map car_identity (find (fun c => Car.id c =? k) l')
  = option_map car_identity (find (fun c => Car.id c =? k) l).
Proof.
  intros [|p a _|p a _]; [reflexivity| |].
  - induction l as [|x l IH]; simpl; [reflexivity|].
    destruct (p x); simpl.
    + now destruct (Car.id x =? k).
    + destruct (Car.id x =? k); [reflexivity | exact IH].
  - unfold update_where. induction l as [|x l IH]; simpl; [reflexivity|].
    destruct (p x); simpl; destruct (Car.id x =? k); auto.
Qed.

(** *** The price of every rental stays right *)

Lemma daysInclusive_nonneg s e : 0 <= daysInclusive s e.
Proof.
  unfold daysInclusive. destruct (newDate s); [|lia].
  destruct (newDate e); [|lia]. destruct (_ <? _); lia.
Qed.


Lemma Forall_update_first_const {A} (P : A -> Prop) p (x : A) l :
  Forall P l -> P x -> Forall P (update_first p (fun _ => x) l).
Proof.
  intros F Hx. induction F as [|y l Hy F IH]; simpl; [constructor|].
  destruct (p y); constructor; auto.
Qed.

Lemma Forall_remove_first {A} (P : A -> Prop) p (l : list A) :
  Forall P l -> Forall P (remove_first p l).
Proof.
  intros F. induction F as [|y l Hy F IH]; simpl; [constructor|].
  destruct (p y); [exact F | constructor; auto].
Qed.

Lemma NoDup_map_inj {A} (g : A -> Z) (l : list A) (x y : A) :
  NoDup (map g l) -> In x l -> In y l -> g x = g y -> x = y.
Proof.
  induction l as [|z l IH]; simpl; intros N Hx Hy E; [contradiction|].
  inversion N as [|? ? Hz N']; subst.
  destruct Hx as [<-|Hx], Hy as [<-|Hy]; auto.
  - exfalso. apply Hz. rewrite E. now apply in_map.
  - exfalso. apply Hz. rewrite <- E. now apply in_map.
Qed.

Lemma find_by_id {A} (g : A -> Z) (k : option Z) (l : list A) (x : A) :
  find (fun y => id_is k (g y)) l = Some x ->
  k = Some (g x) /\ find (fun y => g y =? g x) l = Some x.
Proof.
  intros F. destruct k as [k|]; simpl in F.
  - pose proof (find_some _ _ F) as [_ E]. apply Z.eqb_eq in E.
    rewrite E. split; [reflexivity | exact F].
  - apply find_some in F. destruct F as [_ F]. discriminate.
Qed.

Lemma car_for_is_car_of app v car :
  car_for app v = Some car ->
  find (fun c => Car.id c =? Car.id car) (cars app) = Some car.
Proof. intros F. now apply (find_by_id Car.id) in F. Qed.

Lemma priced_reflag app app' r :
  reflagged (cars app) (cars app') -> priced app r -> priced app' r.
Proof.
  intros R (c & Hc & Hd & Ht). unfold priced, car_of in *.
  pose proof (reflagged_find _ _ (Rental.car_id r) R) as E.
  rewrite Hc in E. destruct (find _ (cars app')) as [c'|]; [|discriminate].
  exists c'. unfold car_identity in E. simpl in E.
  injection E as _ _ _ _ Er. rewrite Er. auto.
Qed.

Lemma costs_reflag app app' :
  reflagged (cars app) (cars app') -> rentals app' = rentals app ->
  costs_consistent app -> costs_consistent app'.
Proof.
  intros R E F. unfold costs_consistent in *. rewrite E.
  eapply Forall_impl; [|exact F]. intros r. now apply priced_reflag.
Qed.

(** The rental a successful Create stores. *)
Lemma post_rentals_stored body app app' c :
  post_rentals body app = (app', Ok c) ->
  exists car,
    car_for app (Post.car_id body) = Some car
    /\ Car.available car <> 0
    /\ some_field_falsy body = false
    /\ 0 < daysInclusive (Post.start_date body) (Post.end_date body)
    /\ Created.total_cost c
       = toFixed2 (Car.daily_rate car
                   * inject_Z (daysInclusive (Post.start_date body)
                                             (Post.end_date body)))
    /\ rentals app'
       = rentals app
         ++ [Rental.mk (Created.id c) (Car.id car) (Post.renter_name body)
               (if useInMemory app then Post.start_date body
                else dateColumn (Post.start_date body))
               (if useInMemory app then Post.end_date body
                else dateColumn (Post.end_date body))
               (Created.total_cost c) (JStr "ongoing")].
Proof.
  unfold post_rentals. fold (some_field_falsy body).
  destruct (some_field_falsy body); [discriminate|].
  destruct (useInMemory app) eqn:Hm.
  - rewrite (car_for_volatile Number sqlInt app _ Hm), (rentals_volatile app Hm).
    destruct (find _ (inMemoryCars app)) as [car|] eqn:F; [|discriminate].
    destruct (Car.available car =? 0) eqn:Ha; [discriminate|].
    fold (daysInclusive (Post.start_date body) (Post.end_date body)).
    destruct (daysInclusive _ _ =? 0) eqn:Hz; [discriminate|].
    intros H. injection H as <- <-. exists car.
    apply Z.eqb_neq in Ha, Hz.
    pose proof (daysInclusive_nonneg (Post.start_date body)
                  (Post.end_date body)).
    repeat split; try reflexivity; try assumption; lia.
  - destruct (db app) as [d|] eqn:Hd; [|discriminate].
    rewrite (car_for_durable Number sqlInt app d _ Hm Hd),
      (rentals_durable app d Hm Hd).
    destruct (select_where _ (Db.cars d)) as [|car rest] eqn:Hsel;
      [discriminate|].
    destruct (Car.available car =? 0) eqn:Ha; [discriminate|].
    destruct (newDate (Post.start_date body)) as [a|] eqn:Ea;
      [destruct (newDate (Post.end_date body)) as [b|] eqn:Eb|];
      try discriminate.
    destruct (b <? a) eqn:L; [discriminate|].
    rewrite (inline_days newDate _ _ a b Ea Eb L).
    intros H. injection H as <- <-. exists car.
    apply Z.eqb_neq in Ha. apply Z.ltb_ge in L.
    destruct (daysInclusive_valid newDate _ _ a b Ea Eb L).
    repeat split; try reflexivity; try assumption; lia.
Qed.

Section RoundTrip.

(** The DATE column gives back the day it was given. *)
Hypothesis dateColumn_keeps : forall v, newDate (dateColumn v) = newDate v.



End RoundTrip.

(** *** What a successful Update stores *)

Lemma update_where_none {A} (p : A -> bool) (f : A -> A) (l : list A) :
  (forall x, In x l -> p x = false) -> update_where p f l = l.
Proof.
  intros H. unfold update_where. rewrite <- (map_id l) at 2.
  apply map_ext_in. intros x I. now rewrite (H x I).
Qed.

Lemma update_first_unique {A} (g : A -> Z) (k : option Z) (y : A) l :
  NoDup (map g l) ->
  update_first (fun x => id_is k (g x)) (fun _ => y) l
  = update_where (fun x => id_is k (g x)) (fun _ => y) l.
Proof.
  induction l as [|x l IH]; simpl; intros N; [reflexivity|].
  inversion N as [|? ? Hx N']; subst.
  destruct (id_is k (g x)) eqn:E.
  - f_equal. symmetry. apply update_where_none. intros z I.
    destruct (id_is k (g z)) eqn:E'; [|reflexivity].
    exfalso. apply Hx. destruct k as [k|]; [|discriminate]. simpl in E, E'.
    apply Z.eqb_eq in E, E'. rewrite E, <- E'. now apply in_map.
  - f_equal. now apply IH.
Qed.

Lemma update_where_unique {A} (g : A -> Z) (k : option Z) (f : A -> A) l x :
  NoDup (map g l) ->
  find (fun y => id_is k (g y)) l = Some x ->
  update_where (fun y => id_is k (g y)) f l
  = update_where (fun y => id_is k (g y)) (fun _ => f x) l.
Proof.
  intros N F. unfold update_where. apply map_ext_in. intros y I.
  destruct (id_is k (g y)) eqn:E; [|reflexivity].
  f_equal. apply (NoDup_map_inj g l); auto.
  - apply find_some in F. tauto.
  - apply find_by_id in F. destruct F as [-> _]. simpl in E.
    now apply Z.eqb_eq in E.
Qed.

Lemma rental_eta (r : Rental.t) :
  Rental.mk (Rental.id r) (Rental.car_id r) (Rental.renter_name r)
            (Rental.start_date r) (Rental.end_date r) (Rental.total_cost r)
            (Rental.status r) = r.
Proof. now destruct r. Qed.


Lemma put_rentals_stored id body app app' u :
  wf app ->
  put_rentals id body app = (app', Ok u) ->
  exists rental,
    rental_for app id = Some rental
    /\ (truthy (Put.end_date body) = true ->
        exists car,
          car_of app rental = Some car
          /\ 0 < daysInclusive (Rental.start_date rental) (Put.end_date body)
          /\ Updated.total_cost u
             = toFixed2 (Car.daily_rate car
                         * inject_Z (daysInclusive (Rental.start_date rental)
                                                   (Put.end_date body))))
    /\ (truthy (Put.end_date body) = false ->
        Updated.total_cost u = Rental.total_cost rental)
    /\ Updated.status u = js_or (Put.status body) (Rental.status rental)
    /\ rentals app'
       = update_where (fun r => id_is (id_param app id) (Rental.id r))
           (fun _ => updated_rental dateColumn app body rental
                       (Updated.total_cost u))
           (rentals app).
Proof.
  intros (Hready & Hnodup & _). unfold put_rentals, updated_rental, car_of.
  destruct (useInMemory app) eqn:Hm.
  - rewrite (rental_for_volatile Number sqlInt app id Hm).
    rewrite (rentals_volatile app Hm) in *. rewrite (cars_volatile app Hm).
    unfold id_param. rewrite Hm.
    destruct (find _ (inMemoryRentals app)) as [rental|] eqn:F;
      [|discriminate].
    cbv zeta. destruct (truthy (Put.end_date body)) eqn:He.
    + destruct (daysInclusive _ _ =? 0) eqn:Hz; [discriminate|].
      destruct (find _ (inMemoryCars app)) as [car|] eqn:Fc; [|discriminate].
      intros E. injection E as <- <-. exists rental.
      apply Z.eqb_neq in Hz.
      pose proof (daysInclusive_nonneg (Rental.start_date rental)
                    (Put.end_date body)).
      split; [reflexivity|]. split.
      { intros _. exists car. unfold js_or. rewrite Fc.
        destruct (truthy (Put.status body));
          cbn [Updated.total_cost Rental.total_cost Rental.set_status
               Rental.set_end_date]; (split; [reflexivity|]);
          (split; [lia | reflexivity]). }
      split; [discriminate|]. split.
      { unfold js_or. now destruct (truthy (Put.status body)). }
      unfold rentals; cbn [useInMemory inMemoryRentals].
      rewrite (update_first_unique Rental.id _ _ _ Hnodup).
      unfold js_or. now destruct (truthy (Put.status body)).
    + intros E. injection E as <- <-. exists rental.
      split; [reflexivity|]. split; [discriminate|]. split.
      { intros _. unfold js_or. now destruct (truthy (Put.status body)). }
      split.
      { unfold js_or. now destruct (truthy (Put.status body)). }
      unfold rentals; cbn [useInMemory inMemoryRentals].
      rewrite (update_first_unique Rental.id _ _ _ Hnodup).
      unfold js_or. destruct (truthy (Put.status body)); cbn;
        [reflexivity | now rewrite rental_eta].
  - destruct (db app) as [d|] eqn:Hd; [|discriminate].
    rewrite (rental_for_durable Number sqlInt app d id Hm Hd).
    rewrite (rentals_durable app d Hm Hd) in *.
    rewrite (cars_durable app d Hm Hd).
    unfold id_param. rewrite Hm.
    destruct (select_where _ (Db.rentals d)) as [|rental rest] eqn:Hsel;
      [discriminate|].
    assert (F : find (fun r => id_is (sqlInt id) (Rental.id r)) (Db.rentals d)
                = Some rental).
    { rewrite <- hd_error_filter. unfold select_where in Hsel.
      now rewrite Hsel. }
    cbv zeta. cbn [hd_error]. unfold select_where.
    rewrite hd_error_filter.
    destruct (truthy (Put.end_date body)) eqn:He.
    + destruct (newDate (Put.end_date body)) as [b|] eqn:Eb; [|discriminate].
      destruct (newDate (Rental.start_date rental)) as [a|] eqn:Ea;
        [|discriminate].
      destruct (b <? a) eqn:L; [discriminate|].
      destruct (find _ (Db.cars d)) as [car|] eqn:Fc; [|discriminate].
      destruct (negb _); [discriminate|].
      rewrite (inline_days newDate _ _ a b Ea Eb L).
      intros E. injection E as <- <-. exists rental.
      apply Z.ltb_ge in L.
      destruct (daysInclusive_valid newDate _ _ a b Ea Eb L).
      split; [reflexivity|]. split.
      { intros _. exists car. cbn [Updated.total_cost].
        split; [exact Fc|]. split; [lia | reflexivity]. }
      split; [discriminate|]. split; [reflexivity|].
      unfold rentals; cbn [useInMemory db Db.rentals].
      now rewrite (update_where_unique Rental.id _ _ _ rental Hnodup F).
    + destruct (negb _); [discriminate|].
      intros E. injection E as <- <-. exists rental.
      split; [reflexivity|]. split; [discriminate|].
      split; [reflexivity|]. split; [reflexivity|].
      unfold rentals; cbn [useInMemory db Db.rentals].
      now rewrite (update_where_unique Rental.id _ _ _ rental Hnodup F).
Qed.

Section Prices.

Hypothesis dateColumn_keeps : forall v, newDate (dateColumn v) = newDate v.




End Prices.

(** *** What an Update never changes *)

Lemma put_rentals_identity id body app app' r :
  put_rentals id body app = (app', r) ->
  map rental_identity (rentals app') = map rental_identity (rentals app).
Proof.
  intros E. destruct r as [u|e];
    [|apply put_rentals_failure in E; now subst].
  revert E. unfold put_rentals.
  destruct (useInMemory app) eqn:Hm.
  - rewrite (rentals_volatile app Hm).
    destruct (find _ (inMemoryRentals app)) as [rental|] eqn:F; [|discriminate].
    cbv zeta.
    match goal with |- match ?D with _ => _ end = _ -> _ =>
      assert (Hid : forall r1, D = inl r1 ->
                               rental_identity r1 = rental_identity rental)
        by (intros r1; repeat branch; intros E; inversion E; reflexivity);
      destruct D as [rental1|e] end; [|discriminate].
    specialize (Hid rental1 eq_refl).
    intros P. injection P as <- _.
    unfold rentals. cbn. apply map_update_first_const.
    intros r Hr. rewrite F in Hr. injection Hr as <-.
    rewrite <- Hid. now destruct (truthy (Put.status body)).
  - destruct (db app) as [d|] eqn:Hd; [|discriminate].
    rewrite (rentals_durable app d Hm Hd).
    destruct (select_where _ (Db.rentals d)) as [|rental rest]; [discriminate|].
    cbv zeta.
    match goal with |- match ?D with _ => _ end = _ -> _ =>
      destruct D as [total|e] end; [|discriminate].
    destruct (negb _); [discriminate|].
    intros P. injection P as <- _.
    unfold rentals. cbn. now apply map_update_where.
Qed.

(** *** Every rental keeps referring to a car *)

Lemma reflagged_refers l l' (k : Z) :
  reflagged l l' ->
  (exists c, find (fun c => Car.id c =? k) l = Some c) ->
  exists c', find (fun c => Car.id c =? k) l' = Some c'.
Proof.
  intros R [c Hc]. pose proof (reflagged_find _ _ k R) as E.
  rewrite Hc in E. destruct (find _ l') as [c'|]; [eauto | discriminate].
Qed.

Lemma references_reflag app app' :
  reflagged (cars app) (cars app') ->
  map Rental.car_id (rentals app') = map Rental.car_id (rentals app) ->
  references_cars app -> references_cars app'.
Proof.
  intros R E F. unfold references_cars, car_of in *.
  apply (Forall_map Rental.car_id
           (fun k => exists c, find (fun c => Car.id c =? k) (cars app')
                               = Some c)).
  apply (Forall_map Rental.car_id
           (fun k => exists c, find (fun c => Car.id c =? k) (cars app)
                               = Some c)) in F.
  rewrite E. eapply Forall_impl; [|exact F].
  intros k. now apply reflagged_refers.
Qed.

Lemma car_ids_of_identity l l' :
  map rental_identity l' = map rental_identity l ->
  map Rental.car_id l' = map Rental.car_id l.
Proof.
  intros E.
  assert (G : forall m, map Rental.car_id m
                        = map (fun t => snd (fst (fst t)))
                              (map rental_identity m))
    by (intros m; rewrite map_map; reflexivity).
  now rewrite (G l'), (G l), E.
Qed.

Lemma handle_references req app :
  references_cars app -> references_cars (fst (handle req app)).
Proof.
  intros F.
  assert (F' : references_cars (count_request app)) by exact F.
  unfold handle, respond. destruct req; cbn [fst].
  - now rewrite get_cars_silent.
  - destruct (post_rentals body _) as [a [c|e]] eqn:E;
      [|apply post_rentals_failure in E; now subst].
    pose proof (post_rentals_cars _ _ _ _ E) as (_ & R & _).
    destruct (post_rentals_stored _ _ _ _ E) as (car & Fc & _ & _ & _ & _ & S).
    cbn [fst]. unfold references_cars. rewrite S. apply Forall_app. split.
    + eapply Forall_impl; [|exact F']. intros r. unfold car_of.
      now apply reflagged_refers.
    + constructor; [|constructor]. unfold car_of. cbn [Rental.car_id].
      apply (reflagged_refers _ _ _ R). exists car.
      exact (car_for_is_car_of _ _ _ Fc).
  - destruct (put_rentals id body _) as [a r] eqn:E. cbn [fst].
    pose proof (put_rentals_cars _ _ _ _ _ E) as (_ & R & _).
    apply (references_reflag _ _ R); [|exact F'].
    apply car_ids_of_identity. exact (put_rentals_identity _ _ _ _ _ E).
  - destruct (delete_rentals id _) as [a [m|e]] eqn:E;
      [|apply delete_rentals_failure in E; now subst].
    pose proof (delete_rentals_cars _ _ _ _ E) as (_ & Hc & _).
    cbn [fst]. unfold references_cars, car_of in *. rewrite Hc.
    unfold delete_rentals in E.
    destruct (useInMemory (count_request app)) eqn:Hm.
    + rewrite (rentals_volatile _ Hm) in F'.
      destruct (find _ (inMemoryRentals _)); [|discriminate].
      injection E as <- _. unfold rentals. cbn.
      now apply Forall_remove_first.
    + destruct (db (count_request app)) as [d|] eqn:Hd; [|discriminate].
      rewrite (rentals_durable _ d Hm Hd) in F'.
      destruct (_ =? 0); [discriminate|].
      injection E as <- _. unfold rentals. cbn.
      now apply Forall_filter.
  - unfold get_metrics. cbn [fst].
    destruct (updateMetrics_frame (count_request app)) as [m [-> _]].
    exact F'.
Qed.

(** *** Sessions *)

Lemma reflagged_binary_fleet l l' :
  reflagged l l' ->
  map car_identity l' = map car_identity l
  /\ (Forall (fun c => Car.available c = 0 \/ Car.available c = 1) l ->
      Forall (fun c => Car.available c = 0 \/ Car.available c = 1) l').
Proof.
  intros R. split; [now apply reflagged_identity | now apply reflagged_binary].
Qed.

(** X1. No request creates, removes or alters a car: along any session the
    fleet (ids, makes, models, years, daily rates, in order) is the one the
    store started with, the store does not switch mode, and flags that
    were 0 or 1 stay 0 or 1. *)
Theorem session_keeps_fleet (reqs : list Request) : forall app : App,
  fleet (fst (serve reqs app)) = fleet app
  /\ useInMemory (fst (serve reqs app)) = useInMemory app
  /\ (flags_binary app -> flags_binary (fst (serve reqs app))).
Proof.
  induction reqs as [|req reqs IH]; intros app; [auto|].
  simpl. pose proof (handle_cars req app) as (M & R & _).
  destruct (handle req app) as [app1 r]. cbn [fst] in *.
  destruct (IH app1) as (F1 & M1 & B1).
  destruct (serve reqs app1) as [app2 rs]. cbn [fst] in *.
  destruct (reflagged_binary_fleet _ _ R) as [F0 B0].
  unfold fleet, flags_binary in *.
  split; [congruence|]. split; [congruence | auto].
Qed.

(** X2. Referential integrity is an invariant of every session: if every
    rental refers to a car of the store, it still does after any sequence
    of requests. *)
Theorem session_keeps_references (reqs : list Request) : forall app : App,
  references_cars app -> references_cars (fst (serve reqs app)).
Proof.
  induction reqs as [|req reqs IH]; intros app F; [exact F|].
  simpl. pose proof (handle_references req app F) as F1.
  destruct (handle req app) as [app1 r]. specialize (IH app1 F1).
  now destruct (serve reqs app1).
Qed.


(** X4. Rental ids stay pairwise distinct along any session, in both
    stores, and in the durable store they stay below the counter. *)
Theorem session_keeps_ids_unique (reqs : list Request) (app : App) :
  wf app ->
  wf (fst (serve reqs app))
  /\ NoDup (map Rental.id (rentals (fst (serve reqs app)))).
Proof.
  intros W.
  pose proof (wf_serve Number newDate sqlInt dateColumn reqs app W) as W'.
  split; [exact W' | apply W'].
Qed.

(** X5. In the durable store the ids handed out during a session increase
    strictly, and none is below the counter the session started with: an
    id is never handed out twice, whatever is deleted in between. *)
Theorem durable_session_ids_increase (reqs : list Request) (app : App) :
  useInMemory app = false ->
  StronglySorted Z.lt (created_ids (snd (serve reqs app)))
  /\ Forall (fun i => counter app <= i) (created_ids (snd (serve reqs app))).
Proof.
  intros Hm.
  destruct (durable_ids_increase Number newDate sqlInt dateColumn reqs app Hm)
    as [G S].
  split; assumption.
Qed.

(** *** Ids of the in-memory store *)

Lemma Math_max_in (xs : list Z) : forall x, In (Math_max x xs) (x :: xs).
Proof.
  unfold Math_max. induction xs as [|y ys IH]; intros x; simpl; [auto|].
  destruct (IH (Z.max x y)) as [E|I]; [|auto].
  rewrite <- E. destruct (Z.max_spec x y) as [[_ ->]|[_ ->]]; auto.
Qed.

(** X6. The in-memory store numbers a new rental one above the largest id
    it holds, and 1 when it holds none: the id exceeds every stored id. *)
Theorem volatile_id_follows_largest
  (body : Post.body) (app app' : App) (c : Created.t) :
  useInMemory app = true ->
  post_rentals body app = (app', Ok c) ->
  Forall (fun r => Rental.id r < Created.id c) (rentals app)
  /\ (rentals app = [] -> Created.id c = 1)
  /\ (rentals app <> [] ->
      exists r, In r (rentals app) /\ Created.id c = Rental.id r + 1).
Proof.
  intros Hm E. rewrite (rentals_volatile app Hm).
  assert (Hid : Created.id c
                = match map Rental.id (inMemoryRentals app) with
                  | [] => 1
                  | x :: xs => Math_max x xs + 1
                  end).
  { unfold post_rentals in E. rewrite Hm in E. cbv zeta in E.
    destruct (negb _ || _ || _ || _); [discriminate|].
    destruct (find _ (inMemoryCars app)) as [car|]; [|discriminate].
    destruct (Car.available car =? 0); [discriminate|].
    destruct (_ =? 0); [discriminate|].
    injection E as _ <-. reflexivity. }
  rewrite Hid. split; [|split].
  - pose proof (volatile_newId_fresh (map Rental.id (inMemoryRentals app)))
      as F.
    now apply (Forall_map Rental.id (fun i => i < _)) in F.
  - now intros ->.
  - intros Hne. destruct (map Rental.id (inMemoryRentals app)) as [|x xs] eqn:M.
    + destruct (inMemoryRentals app); [contradiction | discriminate].
    + pose proof (Math_max_in xs x) as I. rewrite <- M in I.
      apply in_map_iff in I. destruct I as [r [Er Ir]].
      exists r. split; [exact Ir | now rewrite Er].
Qed.

(** *** The request counter and the metrics *)






(** X8. On a usable store GET /metrics changes neither cars nor rentals
    and reports: the number of rentals; the number of them whose status is
    'ongoing'; as completed, the number of all the others, whatever their
    status; as revenue, the cost of the ongoing and returned rentals in the
    durable store and of all rentals in the in-memory store. *)
Theorem metrics_snapshot (app : App) :
  ready app ->
  cars (fst (get_metrics app)) = cars app
  /\ rentals (fst (get_metrics app)) = rentals app
  /\ exists m,
       snd (get_metrics app) = Ok m
       /\ Snapshot.rentals_total m = Z.of_nat (List.length (rentals app))
       /\ Snapshot.rentals_active m
          = Z.of_nat (List.length (filter is_ongoing (rentals app)))
       /\ Snapshot.rentals_completed m
          = Z.of_nat (List.length
                        (filter (fun r => negb (is_ongoing r)) (rentals app)))
       /\ Snapshot.revenue_total m
          = (if useInMemory app
             then sum_list (map Rental.total_cost (rentals app))
             else billable_revenue (rentals app))
       /\ Snapshot.requests_total m = requestCount (metrics app).
Proof.
  intros Hready. unfold get_metrics. cbn [fst snd].
  destruct (updateMetrics_frame app) as [m0 [E0 _]].
  split; [now rewrite E0|]. split; [now rewrite E0|].
  eexists. split; [reflexivity|]. cbn [Snapshot.rentals_total
    Snapshot.rentals_active Snapshot.rentals_completed
    Snapshot.revenue_total Snapshot.requests_total].
  clear m0 E0. unfold updateMetrics.
  destruct (useInMemory app) eqn:Hm.
  - rewrite (rentals_volatile app Hm).
    cbn [metrics totalRentals activeRentals totalRevenue requestCount].
    rewrite fold_left_add_shift.
    pose proof (filter_length is_ongoing (inMemoryRentals app)).
    repeat split; lia.
  - destruct Hready as [Hr|[d Hd]]; [congruence|].
    rewrite (rentals_durable app d Hm Hd), Hd.
    cbn [metrics totalRentals activeRentals totalRevenue requestCount].
    unfold select_where, billable_revenue.
    pose proof (filter_length is_ongoing (Db.rentals d)).
    repeat split; lia.
Qed.

(** *** How the operations compose *)

Lemma post_rentals_conflict body app car :
  ready app ->
  some_field_falsy body = false ->
  car_for app (Post.car_id body) = Some car ->
  Car.available car = 0 ->
  post_rentals body app = (app, Err CarNotAvailable).
Proof.
  intros Hready Hf Hc Ha. unfold post_rentals.
  fold (some_field_falsy body). rewrite Hf.
  destruct (useInMemory app) eqn:Hm.
  - rewrite (car_for_volatile Number sqlInt app _ Hm) in Hc.
    rewrite Hc, Ha. reflexivity.
  - destruct Hready as [Hr|[d Hd]]; [congruence|].
    rewrite (car_for_durable Number sqlInt app d _ Hm Hd) in Hc. rewrite Hd.
    destruct (select_where _ (Db.cars d)) as [|c0 rest]; [discriminate|].
    injection Hc as ->. now rewrite Ha.
Qed.

Lemma post_rentals_accepts body app car :
  ready app ->
  some_field_falsy body = false ->
  car_for app (Post.car_id body) = Some car ->
  Car.available car <> 0 ->
  daysInclusive (Post.start_date body) (Post.end_date body) <> 0 ->
  exists app' c, post_rentals body app = (app', Ok c).
Proof.
  intros Hready Hf Hc Ha Hd0. unfold post_rentals.
  fold (some_field_falsy body). rewrite Hf.
  apply Z.eqb_neq in Ha.
  destruct (useInMemory app) eqn:Hm.
  - rewrite (car_for_volatile Number sqlInt app _ Hm) in Hc.
    rewrite Hc, Ha.
    fold (daysInclusive (Post.start_date body) (Post.end_date body)).
    apply Z.eqb_neq in Hd0. rewrite Hd0. eauto.
  - destruct Hready as [Hr|[d Hd]]; [congruence|].
    rewrite (car_for_durable Number sqlInt app d _ Hm Hd) in Hc. rewrite Hd.
    destruct (select_where _ (Db.cars d)) as [|c0 rest]; [discriminate|].
    injection Hc as ->. rewrite Ha.
    destruct (newDate (Post.start_date body)) as [a|] eqn:Ea;
      [destruct (newDate (Post.end_date body)) as [b|] eqn:Eb|].
    + destruct (b <? a) eqn:L; [|eauto].
      exfalso. apply Hd0, daysInclusive_zero_iff. rewrite Ea, Eb.
      now apply Z.ltb_lt.
    + exfalso. apply Hd0, daysInclusive_zero_iff. now rewrite Ea, Eb.
    + exfalso. apply Hd0, daysInclusive_zero_iff. now rewrite Ea.
Qed.

Lemma post_ok_ready body app app' c :
  post_rentals body app = (app', Ok c) -> ready app /\ ready app'.
Proof.
  intros E.
  assert (R : ready app).
  { unfold post_rentals in E. destruct (negb _ || _ || _ || _); [discriminate|].
    unfold ready.
    destruct (useInMemory app) eqn:Hm; [now left|].
    destruct (db app) as [d|]; [right; eauto | discriminate]. }
  split; [exact R|]. now apply (post_rentals_cars _ _ _ _ E).
Qed.



Lemma fresh_last {A} (p : A -> bool) (l : list A) (y : A) :
  (forall x, In x l -> p x = false) -> p y = true ->
  find p (l ++ [y]) = Some y
  /\ remove_first p (l ++ [y]) = l
  /\ filter p (l ++ [y]) = [y]
  /\ filter (fun x => negb (p x)) (l ++ [y]) = l.
Proof.
  intros Hl Hy. induction l as [|x l IH]; simpl.
  - rewrite Hy. simpl. auto.
  - rewrite (Hl x (or_introl eq_refl)). simpl.
    destruct IH as (F & R & S & T); [intros z I; apply Hl; now right|].
    rewrite F, R, S, T. auto.
Qed.

Lemma car_for_frame app app' v :
  useInMemory app' = useInMemory app -> cars app' = cars app ->
  car_for app' v = car_for app v.
Proof. intros M C. unfold car_for, id_param. now rewrite M, C. Qed.

(** X10. Create then Delete: deleting a rental by the id Create returned
    succeeds and leaves the rentals exactly as they were before the
    Create, but not the cars: the car stays unavailable, and the same
    Create is now refused. *)
Theorem create_then_delete
  (body : Post.body) (v : JsValue) (app app1 app2 : App) (c : Created.t)
  (r : Response string) :
  wf app ->
  post_rentals body app = (app1, Ok c) ->
  id_param app v = Some (Created.id c) ->
  delete_rentals v app1 = (app2, r) ->
  (exists m, r = Ok m)
  /\ rentals app2 = rentals app
  /\ cars app2 = cars app1
  /\ post_rentals body app2 = (app2, Err CarNotAvailable).
Proof.
  intros W E Hv D.
  destruct (post_ok_ready _ _ _ _ E) as [R R1].
  pose proof (post_rentals_cars _ _ _ _ E) as (M & _ & _).
  destruct (post_rentals_stored _ _ _ _ E) as (car & _ & _ & Hf & _ & _ & S).
  destruct (post_rentals_success Number newDate sqlInt dateColumn
              _ _ _ _ R E) as (car' & _ & _ & _ & _ & _ & Held & _).
  pose proof (wf_post_rentals Number newDate sqlInt dateColumn body app W)
    as W1. rewrite E in W1. cbn [fst] in W1.
  destruct W1 as (_ & N1 & _). rewrite S, map_app in N1. cbn [map] in N1.
  cbn [Rental.id] in N1.
  match type of S with _ = _ ++ [?y] => set (new := y) in * end.
  pose (hit := fun x : Rental.t => id_is (Some (Created.id c)) (Rental.id x)).
  assert (Fresh : forall x, In x (rentals app) ->
                  id_is (Some (Created.id c)) (Rental.id x) = false).
  { intros x I. simpl. apply Z.eqb_neq. intros Ex.
    apply NoDup_remove_2 in N1. apply N1. rewrite app_nil_r, <- Ex.
    now apply in_map. }
  assert (Hit : id_is (Some (Created.id c)) (Created.id c) = true)
    by (simpl; apply Z.eqb_refl).
  pose proof (delete_rentals_cars _ _ _ _ D) as (M2 & C2 & R2).
  assert (Hrs : (exists m, r = Ok m) /\ rentals app2 = rentals app).
  { unfold delete_rentals in D. unfold id_param in Hv.
    rewrite <- M in Hv.
    destruct (useInMemory app1) eqn:Hm.
    - rewrite (rentals_volatile app1 Hm) in S. rewrite Hv, S in D.
      destruct (fresh_last hit (rentals app) new Fresh Hit) as (F & Rm & _ & _).
      unfold hit in F, Rm. rewrite F, Rm in D.
      injection D as <- <-. split; [eauto|]. unfold rentals. cbn.
      reflexivity.
    - destruct (db app1) as [d|] eqn:Hd; [|destruct R1 as [?|[? ?]]; congruence].
      rewrite (rentals_durable app1 d Hm Hd) in S. rewrite Hv, S in D.
      destruct (fresh_last hit (rentals app) new Fresh Hit) as (_ & _ & Sel & Del).
      unfold hit in Sel, Del. unfold select_where, delete_where in D.
      rewrite Sel, Del in D. cbn in D.
      injection D as <- <-. split; [eauto|]. unfold rentals. cbn.
      reflexivity. }
  destruct Hrs as [Hok Hrs]. repeat split; try assumption.
  apply (post_rentals_conflict body app2 (Car.set_available 0 car')
           (R2 R1) Hf); [|reflexivity].
  now rewrite (car_for_frame app1 app2 _ M2 C2).
Qed.

Lemma put_returned_frees id body app app' u rental car :
  put_rentals id body app = (app', Ok u) ->
  Put.status body = JStr "returned" ->
  rental_for app id = Some rental ->
  car_of app rental = Some car ->
  car_of app' rental = Some (Car.set_available 1 car).
Proof.
  intros E Hs Hfound Hc. unfold car_of in *. revert E. unfold put_rentals.
  destruct (useInMemory app) eqn:Hm.
  - rewrite (rental_for_volatile Number sqlInt app id Hm) in Hfound.
    rewrite (cars_volatile app Hm) in Hc. rewrite Hfound. cbv zeta.
    match goal with |- match ?D with _ => _ end = _ -> _ =>
      destruct D as [rental1|e] end; [|discriminate].
    rewrite Hs. cbn [truthy strict_eq_str String.eqb andb negb].
    intros E. injection E as <- _. unfold cars. cbn.
    rewrite find_update_first by apply refers_set_available.
    now rewrite Hc.
  - destruct (db app) as [d|] eqn:Hd; [|discriminate].
    rewrite (rental_for_durable Number sqlInt app d id Hm Hd) in Hfound.
    rewrite (cars_durable app d Hm Hd) in Hc.
    destruct (select_where _ (Db.rentals d)) as [|row rest];
      [discriminate|]. injection Hfound as ->. cbv zeta.
    match goal with |- match ?D with _ => _ end = _ -> _ =>
      destruct D as [total|e] end; [|discriminate].
    rewrite Hs. cbn. intros E. injection E as <- _. unfold cars. cbn.
    rewrite find_update_where by apply refers_set_available.
    now rewrite Hc.
Qed.

(** X11. Returning frees the car: after an Update to 'returned' has
    succeeded, a Create that names the rental's car with its four fields
    filled in and a valid date range succeeds, at that car's rate. *)
Theorem return_then_rent
  (id : JsValue) (body : Put.body) (next : Post.body) (app app' : App)
  (u : Updated.t) (rental : Rental.t) (car : Car.t) :
  put_rentals id body app = (app', Ok u) ->
  Put.status body = JStr "returned" ->
  rental_for app id = Some rental ->
  car_of app rental = Some car ->
  some_field_falsy next = false ->
  id_param app (Post.car_id next) = Some (Rental.car_id rental) ->
  daysInclusive (Post.start_date next) (Post.end_date next) <> 0 ->
  exists app'' c,
    post_rentals next app' = (app'', Ok c)
    /\ Created.total_cost c
       = toFixed2 (Car.daily_rate car
                   * inject_Z (daysInclusive (Post.start_date next)
                                             (Post.end_date next))).
Proof.
  intros E Hs Hfound Hc Hf Hid Hd.
  pose proof (put_returned_frees _ _ _ _ _ _ _ E Hs Hfound Hc) as Free.
  pose proof (put_rentals_cars _ _ _ _ _ E) as (M & _ & R').
  assert (R : ready app).
  { unfold ready. unfold put_rentals in E.
    destruct (useInMemory app); [now left|].
    destruct (db app); [right; eauto | discriminate]. }
  assert (Hcar : car_for app' (Post.car_id next)
                 = Some (Car.set_available 1 car)).
  { unfold car_for, id_param in *. rewrite M, Hid. exact Free. }
  destruct (post_rentals_accepts next app' _ (R' R) Hf Hcar) as (app'' & c & P);
    [discriminate | exact Hd |].
  exists app'', c. split; [exact P|].
  destruct (post_rentals_stored _ _ _ _ P) as (car2 & Hc2 & _ & _ & _ & T & _).
  rewrite Hcar in Hc2. injection Hc2 as <-. exact T.
Qed.

(** X12. Extending a rental: a successful Update that carries an
    [end_date] answers the referenced car's daily rate times the inclusive
    day count from the rental's start to the new end, to the cent, and the
    rental found under that id afterwards has this cost and the new end. *)
Theorem extend_recomputes_cost
  (id : JsValue) (body : Put.body) (app app' : App) (u : Updated.t) :
  wf app ->
  put_rentals id body app = (app', Ok u) ->
  truthy (Put.end_date body) = true ->
  exists rental car,
    rental_for app id = Some rental
    /\ car_of app rental = Some car
    /\ 0 < daysInclusive (Rental.start_date rental) (Put.end_date body)
    /\ Updated.total_cost u
       = toFixed2 (Car.daily_rate car
                   * inject_Z (daysInclusive (Rental.start_date rental)
                                             (Put.end_date body)))
    /\ rental_for app' id
       = Some (updated_rental dateColumn app body rental
                              (Updated.total_cost u)).
Proof.
  intros W E He.
  destruct (put_rentals_stored _ _ _ _ _ W E) as (rental & F & Hd & _ & _ & S).
  destruct (Hd He) as (car & Fc & D & T).
  pose proof (put_rentals_cars _ _ _ _ _ E) as (M & _ & _).
  exists rental, car. repeat split; try assumption.
  unfold rental_for in *. rewrite S. unfold id_param in *. rewrite M.
  rewrite find_update_where.
  - now rewrite F.
  - intros x _. apply find_some in F. apply F.
Qed.

(** X13. Update never touches what identifies a rental: whatever the
    request and its outcome, the rentals afterwards are as many, in the
    same order, with the same ids, cars, renters and start dates. *)
Theorem update_keeps_identity
  (id : JsValue) (body : Put.body) (app app' : App) (r : Response Updated.t) :
  put_rentals id body app = (app', r) ->
  map rental_identity (rentals app') = map rental_identity (rentals app)
  /\ List.length (rentals app') = List.length (rentals app).
Proof.
  intros E. pose proof (put_rentals_identity _ _ _ _ _ E) as I.
  split; [exact I|].
  rewrite <- (length_map rental_identity (rentals app')), I.
  apply length_map.
Qed.

(** X14. The failures of Update, in both stores: no rental under the id
    is not-found; a rental whose start date parses and whose new
    [end_date] is not a date or lies before the start is an invalid
    end_date.  Neither changes anything. *)
Theorem put_rentals_rejects (id : JsValue) (body : Put.body) (app : App) :
  ready app ->
  (rental_for app id = None ->
   put_rentals id body app = (app, Err RentalNotFound))
  /\ (forall rental,
        rental_for app id = Some rental ->
        truthy (Put.end_date body) = true ->
        newDate (Rental.start_date rental) <> None ->
        daysInclusive (Rental.start_date rental) (Put.end_date body) = 0 ->
        put_rentals id body app = (app, Err InvalidEndDate)).
Proof.
  intros Hready. unfold put_rentals.
  destruct (useInMemory app) eqn:Hm.
  - rewrite (rental_for_volatile Number sqlInt app id Hm). split.
    + now intros ->.
    + intros rental -> He _ Hz. cbv zeta. rewrite He.
      fold (daysInclusive (Rental.start_date rental) (Put.end_date body)).
      now rewrite Hz.
  - destruct Hready as [Hr|[d Hd]]; [congruence|].
    rewrite (rental_for_durable Number sqlInt app d id Hm Hd), Hd. split.
    + intros F. destruct (select_where _ (Db.rentals d)); [reflexivity|].
      discriminate.
    + intros rental F He Hs Hz.
      destruct (select_where _ (Db.rentals d)) as [|row rest]; [discriminate|].
      injection F as ->. cbv zeta. rewrite He.
      apply daysInclusive_zero_iff in Hz.
      destruct (newDate (Rental.start_date rental)) as [a|]; [|congruence].
      destruct (newDate (Put.end_date body)) as [b|]; [|reflexivity].
      apply Z.ltb_lt in Hz. now rewrite Hz.
Qed.

(** *** The day count *)



(** X16. For valid ranges the day count grows with the range: a later
    end or an earlier start never gives fewer days. *)
Theorem daysInclusive_monotone (s e s' e' : JsValue) (a b a' b' : Z) :
  newDate s = Some a -> newDate e = Some b ->
  newDate s' = Some a' -> newDate e' = Some b' ->
  a' <= a -> a <= b -> b <= b' ->
  daysInclusive s e <= daysInclusive s' e'.
Proof.
  intros Hs He Hs' He' H1 H2 H3.
  destruct (daysInclusive_valid newDate s e a b Hs He H2) as [-> _].
  destruct (daysInclusive_valid newDate s' e' a' b' Hs' He') as [-> _];
    [lia|].
  pose proof (Math_ceil_div_bounds (b - a) msPerDay eq_refl).
  pose proof (Math_ceil_div_bounds (b' - a') msPerDay eq_refl).
  unfold msPerDay in *. nia.
Qed.

(** X19. What a successful Create does: it appends one rental and touches
    no other; the new rental has the answered id and cost, the found
    car's id, the body's renter and dates (as the DATE column keeps them,
    in the durable store) and status 'ongoing'; the cost is the car's
    daily rate times the inclusive day count, to the cent; and the car is
    found unavailable afterwards. *)
Theorem create_appends_rental
  (body : Post.body) (app app' : App) (c : Created.t) :
  post_rentals body app = (app', Ok c) ->
  exists car,
    car_for app (Post.car_id body) = Some car
    /\ Car.available car <> 0
    /\ 0 < daysInclusive (Post.start_date body) (Post.end_date body)
    /\ Created.total_cost c
       = toFixed2 (Car.daily_rate car
                   * inject_Z (daysInclusive (Post.start_date body)
                                             (Post.end_date body)))
    /\ rentals app'
       = rentals app
         ++ [Rental.mk (Created.id c) (Car.id car) (Post.renter_name body)
               (if useInMemory app then Post.start_date body
                else dateColumn (Post.start_date body))
               (if useInMemory app then Post.end_date body
                else dateColumn (Post.end_date body))
               (Created.total_cost c) (JStr "ongoing")]
    /\ car_for app' (Post.car_id body) = Some (Car.set_available 0 car).
Proof.
  intros E. destruct (post_ok_ready _ _ _ _ E) as [R _].
  destruct (post_rentals_stored _ _ _ _ E) as (car & Hc & Ha & _ & D & T & S).
  destruct (post_rentals_success Number newDate sqlInt dateColumn
              _ _ _ _ R E) as (car' & _ & Hc' & _ & _ & _ & Held & _).
  rewrite Hc in Hc'. injection Hc' as <-.
  exists car. repeat split; assumption.
Qed.

(** *** From start-up *)


End Coverage.

(** ** The listing *)

Lemma insert_perm (a : Listing.entry) (l : list Listing.entry) :
  Permutation (Listing.insert a l) (a :: l).
Proof.
  induction l as [|b l IH]; simpl; [reflexivity|].
  destruct (0 <? Listing.compare a b); [|reflexivity].
  rewrite IH. apply perm_swap.
Qed.

Lemma sort_perm (l : list Listing.entry) : Permutation (Listing.sort l) l.
Proof.
  induction l as [|a l IH]; simpl; [reflexivity|].
  rewrite insert_perm. now constructor.
Qed.

Lemma insert_sorted (a : Listing.entry) (l : list Listing.entry) :
  StronglySorted Listing.newest_first l ->
  StronglySorted Listing.newest_first (Listing.insert a l).
Proof.
  induction 1 as [|b l S IH F]; simpl.
  - repeat constructor.
  - unfold Listing.compare. destruct (Z.ltb_spec 0
      (Listing.created_at b - Listing.created_at a)) as [L|L].
    + constructor; [exact IH|].
      rewrite (insert_perm a l). constructor; [unfold Listing.newest_first; lia|].
      exact F.
    + constructor; [now constructor|].
      constructor; [unfold Listing.newest_first; lia|].
      eapply Forall_impl; [|exact F]. unfold Listing.newest_first. intros; lia.
Qed.

Lemma sort_sorted (l : list Listing.entry) :
  StronglySorted Listing.newest_first (Listing.sort l).
Proof.
  induction l as [|a l IH]; simpl; [constructor | now apply insert_sorted].
Qed.

(** Entries with the same stamp keep the order the array had. *)
Lemma insert_stable (t : Z) (a : Listing.entry) (l : list Listing.entry) :
  StronglySorted Listing.newest_first l ->
  filter (fun x => Listing.created_at x =? t) (Listing.insert a l)
  = filter (fun x => Listing.created_at x =? t) (a :: l).
Proof.
  induction 1 as [|b l S IH F]; [reflexivity|].
  cbn [Listing.insert]. unfold Listing.compare.
  destruct (Z.ltb_spec 0 (Listing.created_at b - Listing.created_at a))
    as [L|L]; [|reflexivity].
  cbn [filter] in *. rewrite IH.
  destruct (Z.eqb_spec (Listing.created_at b) t) as [Eb|Eb];
    destruct (Z.eqb_spec (Listing.created_at a) t) as [Ea|Ea];
    try reflexivity. lia.
Qed.

Lemma sort_stable (t : Z) (l : list Listing.entry) :
  filter (fun x => Listing.created_at x =? t) (Listing.sort l)
  = filter (fun x => Listing.created_at x =? t) l.
Proof.
  induction l as [|a l IH]; [reflexivity|].
  cbn [Listing.sort]. rewrite insert_stable by apply sort_sorted.
  cbn [filter]. now rewrite IH.
Qed.

Lemma map_of_entry_join cars (l : list Listing.entry) :
  map Listing.of_entry (map (Listing.join cars) l) = l.
Proof.
  rewrite map_map. rewrite <- (map_id l) at 2. now apply map_ext.
Qed.

(** X17. The in-memory listing answers every rental exactly once, newest
    first, rentals created at the same instant in the order they were
    created; each row carries the make, model, year and rate of the first
    car with the rental's car_id, and a rental without such a car is still
    listed, with those fields undefined. *)
Theorem listing_complete_and_ordered
  (cars : list Car.t) (rs : list Listing.entry) :
  let rows := Listing.get_rentals cars rs in
  Permutation (map Listing.of_entry rows) rs
  /\ StronglySorted Listing.newest_first (map Listing.of_entry rows)
  /\ (forall t,
        filter (fun x => Listing.created_at x =? t) (map Listing.of_entry rows)
        = filter (fun x => Listing.created_at x =? t) rs)
  /\ Forall (fun row =>
               let car := find (fun c => Car.id c
                                         =? Rental.car_id
                                              (Listing.rental
                                                 (Listing.of_entry row)))
                               cars in
               Listing.make row = option_map Car.make car
               /\ Listing.model row = option_map Car.model car
               /\ Listing.year row = option_map Car.year car
               /\ Listing.daily_rate row = option_map Car.daily_rate car)
            rows.
Proof.
  cbv zeta. unfold Listing.get_rentals. rewrite map_of_entry_join.
  split; [apply sort_perm|]. split; [apply sort_sorted|].
  split; [intros t; apply sort_stable|].
  apply Forall_map. apply Forall_forall. intros r _. cbn. auto.
Qed.

(** ** The further properties on the seeded stores *)


Lemma wf_volatile : wf volatile.
Proof. split; [now left|]. split; [constructor | discriminate]. Qed.

Lemma session_keeps_fleet_witness :
  fleet (fst (sample_serve busy_session volatile)) = fleet volatile
  /\ flags_binary (fst (sample_serve busy_session volatile)).
Proof.
  destruct (session_keeps_fleet Sample.Number Sample.newDate Sample.sqlInt
              Sample.dateColumn busy_session volatile) as (F & _ & B).
  split; [exact F|]. apply B. unfold flags_binary. vm_compute.
  repeat constructor; now right.
Defined.

Lemma session_keeps_references_witness :
  references_cars (fst (sample_serve busy_session volatile)).
Proof.
  apply (session_keeps_references Sample.Number Sample.newDate Sample.sqlInt
           Sample.dateColumn busy_session volatile).
  unfold references_cars. simpl. constructor.
Defined.


Lemma session_keeps_ids_unique_witness :
  NoDup (map Rental.id (rentals (fst (sample_serve busy_session volatile)))).
Proof.
  apply (session_keeps_ids_unique Sample.Number Sample.newDate Sample.sqlInt
           Sample.dateColumn busy_session volatile wf_volatile).
Defined.

Lemma durable_session_ids_increase_witness :
  StronglySorted Z.lt (created_ids (snd (sample_serve busy_session durable)))
  /\ created_ids (snd (sample_serve busy_session durable)) = [1; 2; 3].
Proof.
  split; [|reflexivity].
  apply (durable_session_ids_increase Sample.Number Sample.newDate
           Sample.sqlInt Sample.dateColumn busy_session durable eq_refl).
Defined.

Lemma volatile_id_follows_largest_witness :
  sample_post bob booked = (fst (sample_post bob booked), Ok bob_created)
  /\ Forall (fun r => Rental.id r < 2) (rentals booked).
Proof.
  split; [reflexivity|].
  apply (volatile_id_follows_largest Sample.Number Sample.newDate Sample.sqlInt
           Sample.dateColumn bob booked (fst (sample_post bob booked))
           bob_created eq_refl eq_refl).
Defined.

Lemma metrics_snapshot_witness :
  ready rented
  /\ exists m, snd (get_metrics rented) = Ok m
               /\ Snapshot.rentals_total m = 1
               /\ Snapshot.revenue_total m = 10500.
Proof.
  split; [exact ready_rented|].
  destruct (metrics_snapshot rented ready_rented) as (_ & _ & m & E & T & _ & _ & V & _).
  exists m. split; [exact E|]. split; [exact T | exact V].
Defined.


Lemma create_then_delete_witness :
  rentals (fst (sample_delete (JStr "1") booked)) = rentals volatile
  /\ sample_post alice (fst (sample_delete (JStr "1") booked))
     = (fst (sample_delete (JStr "1") booked), Err CarNotAvailable).
Proof.
  destruct (create_then_delete Sample.Number Sample.newDate Sample.sqlInt
              Sample.dateColumn alice (JStr "1") volatile booked
              (fst (sample_delete (JStr "1") booked)) alice_created
              (Ok "Rental deleted (in-memory)"%string)
              wf_volatile eq_refl eq_refl eq_refl) as (_ & R & _ & P).
  split; [exact R | exact P].
Defined.

Lemma return_then_rent_witness :
  sample_put (JStr "1") (only_status "returned") booked
  = (fst (sample_put (JStr "1") (only_status "returned") booked),
     Ok returned_answer)
  /\ exists app'' c,
       sample_post carol
         (fst (sample_put (JStr "1") (only_status "returned") booked))
       = (app'', Ok c)
       /\ Created.total_cost c = 7000.
Proof.
  split; [reflexivity|].
  destruct (return_then_rent Sample.Number Sample.newDate Sample.sqlInt
              Sample.dateColumn (JStr "1") (only_status "returned") carol
              booked
              (fst (sample_put (JStr "1") (only_status "returned") booked))
              returned_answer alice_rental held_corolla
              eq_refl eq_refl eq_refl eq_refl eq_refl eq_refl)
    as (app'' & c & P & T).
  - discriminate.
  - exists app'', c. split; [exact P | exact T].
Defined.

Lemma extend_recomputes_cost_witness :
  sample_put (JStr "1") to_the_fifth booked
  = (fst (sample_put (JStr "1") to_the_fifth booked), Ok extended_answer)
  /\ exists rental car,
       rental_for Sample.Number Sample.sqlInt booked (JStr "1") = Some rental
       /\ car_of booked rental = Some car
       /\ Updated.total_cost extended_answer
          = toFixed2 (Car.daily_rate car
                      * inject_Z (daysInclusive Sample.newDate
                                    (Rental.start_date rental)
                                    (Put.end_date to_the_fifth))).
Proof.
  split; [reflexivity|].
  assert (W : wf booked).
  { split; [now left|]. split; [|discriminate].
    vm_compute. constructor; [intros [] | constructor]. }
  destruct (extend_recomputes_cost Sample.Number Sample.newDate Sample.sqlInt
              Sample.dateColumn (JStr "1") to_the_fifth booked
              (fst (sample_put (JStr "1") to_the_fifth booked))
              extended_answer W eq_refl eq_refl)
    as (rental & car & F & C & _ & T & _).
  exists rental, car. split; [exact F|]. split; [exact C | exact T].
Defined.

Lemma update_keeps_identity_witness :
  map rental_identity
      (rentals (fst (sample_put (JStr "1") to_the_fifth booked)))
  = map rental_identity (rentals booked).
Proof.
  apply (update_keeps_identity Sample.Number Sample.newDate Sample.sqlInt
           Sample.dateColumn (JStr "1") to_the_fifth booked
           (fst (sample_put (JStr "1") to_the_fifth booked))
           (Ok extended_answer) eq_refl).
Defined.

Lemma put_rentals_rejects_witness :
  sample_put (JStr "9") to_the_fifth booked = (booked, Err RentalNotFound)
  /\ sample_put (JStr "1") (Put.mk JUndefined (JStr "2024-12-31")) booked
     = (booked, Err InvalidEndDate).
Proof.
  assert (R : ready booked) by (left; reflexivity).
  split.
  - apply (proj1 (put_rentals_rejects Sample.Number Sample.newDate
                    Sample.sqlInt Sample.dateColumn (JStr "9") to_the_fifth
                    booked R)).
    reflexivity.
  - apply (proj2 (put_rentals_rejects Sample.Number Sample.newDate
                    Sample.sqlInt Sample.dateColumn (JStr "1")
                    (Put.mk JUndefined (JStr "2024-12-31")) booked R)
                 alice_rental);
      [reflexivity | reflexivity | discriminate | reflexivity].
Defined.


Lemma daysInclusive_monotone_witness :
  daysInclusive Sample.newDate (JStr "2025-01-02") (JStr "2025-01-03")
  <= daysInclusive Sample.newDate (JStr "2025-01-01") (JStr "2025-01-05").
Proof.
  apply (daysInclusive_monotone Sample.newDate (JStr "2025-01-02")
           (JStr "2025-01-03") (JStr "2025-01-01") (JStr "2025-01-05")
           1735776000000 1735862400000 1735689600000 1736035200000);
    try reflexivity; lia.
Defined.


Lemma create_appends_rental_witness :
  sample_post alice volatile = (booked, Ok alice_created)
  /\ rentals booked = rentals volatile ++ [alice_rental]
  /\ car_for Sample.Number Sample.sqlInt booked (Post.car_id alice)
     = Some held_corolla.
Proof.
  split; [reflexivity|].
  destruct (create_appends_rental Sample.Number Sample.newDate Sample.sqlInt
              Sample.dateColumn alice volatile booked alice_created eq_refl)
    as (car & Hc & _ & _ & _ & S & Held).
  change (car_for Sample.Number Sample.sqlInt volatile (Post.car_id alice))
    with (Some (Car.mk 1 "Toyota" "Corolla" 2020 (35 # 1) 1)) in Hc.
  injection Hc as <-. split; [exact S | exact Held].
Defined.
